(** * RemoteRelay: a shallow embedding of [src/index.ts]

    RemoteRelay is an MCP server that turns tool calls into shell commands
    run on a remote host through [ssh].  The development below embeds the
    command bridge ([sshExec], [tmuxExec], [escapeShell]) and the tool
    handlers that the documented properties talk about, and proves or
    refutes those properties.

    Conventions.
    - A JavaScript string is a [string]: a sequence of 8-bit code units.
    - A JavaScript number that is a count of milliseconds, a line number or
      an exit status is an integer [Z]; [NaN] is kept where the code can
      produce it ([parseInt]) or test for it ([||]).
    - An [async] function is a computation over the state of the process
      (the variable [currentWorkingDirectory]) and of the outside world
      (clock, child processes); a rejected promise is [Throw].
    - The loop of [tmuxExec] is bounded by a fuel argument; running out of
      fuel is the outcome [Pending]. *)

From Stdlib Require Import String Ascii List ZArith Lia Bool.
From Stdlib Require Import DecimalString DecimalZ.
Import ListNotations.

Open Scope string_scope.
Open Scope Z_scope.

(** ** The JavaScript built-ins the program calls *)

Module JS.

(** [number]: the integers and [NaN]. *)
Inductive number : Type :=
| Num (z : Z)
| NaN.

Definition number_eqb (a b : number) : bool :=
  match a, b with
  | Num x, Num y => x =? y
  | _, _ => false          (* [NaN === NaN] is false *)
  end.

(** Truthiness of a string and of an optional number. *)
Definition truthy (s : string) : bool := negb (s =? "")%string.

Definition truthy_num (n : option number) : bool :=
  match n with
  | Some (Num z) => negb (z =? 0)
  | Some NaN => false
  | None => false
  end.

(** [a || d] on [string | null | undefined]. *)
Definition or_string (a : option string) (d : string) : string :=
  match a with
  | Some s => if truthy s then s else d
  | None => d
  end.

(** [a || d] on strings. *)
Definition or_str (a d : string) : string := if truthy a then a else d.

(** [String(z)] for an integer, as a template literal prints it. *)
Definition toString (z : Z) : string := NilEmpty.string_of_int (Z.to_int z).

(** [s.startsWith(p)]. *)
Definition startsWith (s p : string) : bool := String.prefix p s.

(** The code units [trim] and [parseInt] skip: TAB, LF, VT, FF, CR, SP and
    NBSP. *)
Definition isWhiteSpace (c : ascii) : bool :=
  let n := nat_of_ascii c in
  ((9 <=? n)%nat && (n <=? 13)%nat) || (n =? 32)%nat || (n =? 160)%nat.

Fixpoint trimStart (s : string) : string :=
  match s with
  | EmptyString => EmptyString
  | String c s' => if isWhiteSpace c then trimStart s' else s
  end.

Fixpoint trimEnd (s : string) : string :=
  match s with
  | EmptyString => EmptyString
  | String c s' =>
      let t := trimEnd s' in
      if isWhiteSpace c && (t =? "")%string then EmptyString else String c t
  end.

(** [s.trim()]. *)
Definition trim (s : string) : string := trimEnd (trimStart s).

(** The characters of [s] from index [n] on: [s.substring(n)]. *)
Fixpoint drop (n : nat) (s : string) : string :=
  match n, s with
  | O, _ => s
  | S n', String _ s' => drop n' s'
  | S _, EmptyString => EmptyString
  end.

(** First occurrence of [needle] in [hay], as the text before it and the
    text after it (StringIndexOf from position 0). *)
Fixpoint find (needle hay : string) : option (string * string) :=
  if String.prefix needle hay then Some (EmptyString, drop (String.length needle) hay)
  else match hay with
       | EmptyString => None
       | String c hay' =>
           match find needle hay' with
           | Some (before, after) => Some (String c before, after)
           | None => None
           end
       end.

(** GetSubstitution for a string pattern (no capture groups): in the
    replacement text [$$] stands for [$], [$&] for the matched text,
    [$`] for the text before the match and [$'] for the text after it;
    every other character, a lone [$] included, stands for itself. *)
Fixpoint GetSubstitution (matched before after template : string) : string :=
  match template with
  | EmptyString => EmptyString
  | String a rest =>
      if (a =? "$")%char then
        match rest with
        | String c rest' =>
            if (c =? "$")%char then String "$" (GetSubstitution matched before after rest')
            else if (c =? "&")%char then matched ++ GetSubstitution matched before after rest'
            else if (c =? "`")%char then before ++ GetSubstitution matched before after rest'
            else if (c =? "'")%char then after ++ GetSubstitution matched before after rest'
            else String a (GetSubstitution matched before after rest)
        | EmptyString => String a EmptyString
        end
      else String a (GetSubstitution matched before after rest)
  end.

(** A text without [$]: a replacement with no pattern in it. *)
Fixpoint no_dollar (s : string) : bool :=
  match s with
  | EmptyString => true
  | String a s' => negb (a =? "$")%char && no_dollar s'
  end.

(** [s.replace(pattern, replacement)] with a string pattern: the first
    occurrence only. *)
Definition replace (s pattern replacement : string) : string :=
  match find pattern s with
  | None => s
  | Some (before, after) =>
      before ++ GetSubstitution pattern before after replacement ++ after
  end.

Fixpoint chars (s : string) : list string :=
  match s with
  | EmptyString => []
  | String c s' => String c EmptyString :: chars s'
  end.

Fixpoint split_from (fuel : nat) (sep s : string) : list string :=
  match fuel with
  | O => [s]
  | S fuel' =>
      match find sep s with
      | None => [s]
      | Some (before, after) => before :: split_from fuel' sep after
      end
  end.

(** [s.split(sep)] with a string separator and no limit.  An empty
    separator cuts [s] into its code units. *)
Definition split (s sep : string) : list string :=
  if (sep =? "")%string then chars s
  else split_from (String.length s) sep s.

(** [s.replace(/'/g, r)] for a replacement [r] that has no [$]. *)
Fixpoint replace_quotes (s r : string) : string :=
  match s with
  | EmptyString => EmptyString
  | String c s' =>
      if (c =? "'")%char then r ++ replace_quotes s' r
      else String c (replace_quotes s' r)
  end.

(** [a || d] on [number | undefined], for a non-zero default [d]. *)
Definition or_number (a : option number) (d : Z) : Z :=
  match a with
  | Some (Num z) => if z =? 0 then d else z
  | Some NaN => d
  | None => d
  end.

Definition digit (c : ascii) : option Z :=
  let n := nat_of_ascii c in
  if ((48 <=? n) && (n <=? 57))%nat then Some (Z.of_nat n - 48) else None.

Fixpoint digits (acc : option Z) (s : string) : option Z :=
  match s with
  | EmptyString => acc
  | String c s' =>
      match digit c with
      | Some d =>
          digits (Some (10 * match acc with Some a => a | None => 0 end + d)) s'
      | None => acc
      end
  end.

(** [parseInt(s, 10)]: leading white space, an optional sign, then the
    longest run of decimal digits; [NaN] when there is no digit. *)
Definition parseInt (s : string) : number :=
  match trimStart s with
  | String "-" s' =>
      match digits None s' with Some z => Num (- z) | None => NaN end
  | String "+" s' =>
      match digits None s' with Some z => Num z | None => NaN end
  | s' =>
      match digits None s' with Some z => Num z | None => NaN end
  end.

(** The integers that a number holds exactly and prints digit by digit
    ([Number.isSafeInteger]): sums and differences that stay in this range
    are exact. *)
Definition safe_integer (z : Z) : Prop := - 2 ^ 53 < z < 2 ^ 53.

(** [String(n)] for a number that may be [NaN]. *)
Definition number_toString (n : number) : string :=
  match n with
  | Num z => toString z
  | NaN => "NaN"
  end.

(** Truthiness of an optional boolean. *)
Definition truthy_bool (b : option bool) : bool :=
  match b with
  | Some true => true
  | _ => false
  end.

End JS.

(** ** The platform: clock, child processes, timers, configuration *)

(** What a spawned child process reports: the [close] event, with the text
    collected from its two pipes and its exit status ([null] when the
    process was killed by a signal), or the [error] event. *)
Inductive ChildEvent : Type :=
| Close (out err : string) (code : option Z)
| Error (e : string).

Class Platform : Type := {
  World : Type;
  (** [Date.now()], in milliseconds. *)
  Date_now : World -> Z * World;
  (** [spawn(file, args, { timeout })] run until the promise is settled. *)
  spawn : string -> list string -> Z -> World -> ChildEvent * World;
  (** [await new Promise(resolve => setTimeout(resolve, ms))]. *)
  setTimeout : Z -> World -> World;
  (** [process.env] *)
  env : string -> option string;
  (** [path.join(os.tmpdir(), "remoterelay-ssh-%r@%h:%p")] *)
  SSH_CONTROL_PATH : string
}.

(** ** Promises as computations *)

Inductive Outcome (A : Type) : Type :=
| Ret (a : A)          (* the promise is fulfilled *)
| Throw (e : string)   (* the promise is rejected, or an exception is thrown *)
| Pending.             (* the fuel ran out before the promise settled *)
Arguments Ret {A} a.
Arguments Throw {A} e.
Arguments Pending {A}.

Record ExecResult : Type := mkResult {
  stdout : string;
  stderr : string;
  exitCode : JS.number
}.

Record Options : Type := mkOptions { timeout : option JS.number }.

(** The default value [{}] of the [options] parameter. *)
Definition no_options : Options := {| timeout := None |}.

(** A tool response: one text item and the [isError] flag. *)
Record Response : Type := mkResponse {
  text : string;
  isError : bool
}.

(** Escape string for shell (index.ts, 99-101). *)
Definition escapeShell (str : string) : string :=
  "'" ++ JS.replace_quotes str "'\''" ++ "'".

Section Relay.

Context {P : Platform}.

(** The state of the process: the module variable
    [currentWorkingDirectory] and the world outside. *)
Record State : Type := mkState {
  currentWorkingDirectory : option string;
  world : World
}.

Definition M (A : Type) : Type := State -> Outcome A * State.

Definition ret {A} (a : A) : M A := fun st => (Ret a, st).

Definition bind {A B} (m : M A) (k : A -> M B) : M B :=
  fun st =>
    match m st with
    | (Ret a, st') => k a st'
    | (Throw e, st') => (Throw e, st')
    | (Pending, st') => (Pending, st')
    end.

(** [try { m } catch (error) { h error }] *)
Definition try_catch {A} (m : M A) (h : string -> M A) : M A :=
  fun st =>
    match m st with
    | (Throw e, st') => h e st'
    | r => r
    end.

Definition get_cwd : M (option string) :=
  fun st => (Ret (currentWorkingDirectory st), st).

Definition set_cwd (d : string) : M unit :=
  fun st => (Ret tt, {| currentWorkingDirectory := Some d; world := world st |}).

Definition now : M Z :=
  fun st =>
    let (t, w) := Date_now (world st) in
    (Ret t, {| currentWorkingDirectory := currentWorkingDirectory st; world := w |}).

Definition sleep (ms : Z) : M unit :=
  fun st =>
    (Ret tt, {| currentWorkingDirectory := currentWorkingDirectory st;
                world := setTimeout ms (world st) |}).

(** Configuration (index.ts, 13-14). *)
Definition SSH_HOST : string := JS.or_string (env "REMOTE_RELAY_HOST") "quarry".
Definition TMUX_SESSION : string :=
  JS.or_string (env "REMOTE_RELAY_TMUX_SESSION") "claude-relay".

Definition sshArgs (command : string) : list string :=
  [ "-o"; "ControlPath=" ++ SSH_CONTROL_PATH;
    "-o"; "ControlMaster=auto";
    "-o"; "ControlPersist=600";
    SSH_HOST;
    command ].

(** The promise of [sshExec] is settled by the first event of the child:
    [close] resolves it, with a missing exit status read as 0
    ([exitCode ?? 0]); [error] rejects it (index.ts, 44-50). *)
Definition settle (st : State) (r : ChildEvent * World)
  : Outcome ExecResult * State :=
  match r with
  | (Close out err code, w) =>
      (Ret {| stdout := out; stderr := err;
              exitCode := JS.Num (match code with Some c => c | None => 0 end) |},
       {| currentWorkingDirectory := currentWorkingDirectory st; world := w |})
  | (Error e, w) =>
      (Throw e, {| currentWorkingDirectory := currentWorkingDirectory st; world := w |})
  end.

(** Helper to run SSH commands (index.ts, 21-52). *)
Definition sshExec (command : string) (options : Options) : M ExecResult :=
  fun st =>
    let timeout := JS.or_number (timeout options) 60000 in
    settle st (spawn "ssh" (sshArgs command) timeout (world st)).

End Relay.

Arguments State : clear implicits.
Arguments M : clear implicits.

Declare Scope relay_scope.
Delimit Scope relay_scope with relay.
Notation "x <- m ;; k" := (bind m (fun x => k))
  (at level 61, m at next level, right associativity) : relay_scope.
Notation "' pat <- m ;; k" := (bind m (fun x => match x with pat => k end))
  (at level 61, pat pattern, m at next level, right associativity) : relay_scope.
Notation "m ;;; k" := (bind m (fun _ => k))
  (at level 61, right associativity) : relay_scope.
Open Scope relay_scope.

Section Bridge.

Context {P : Platform}.

(** The two temporary files of one call (index.ts, 57-58): each name is
    built from its own reading of the clock. *)
Definition temp_files : M P (string * string) :=
  t1 <- now ;;
  let outputFile := "/tmp/claude-relay-output-" ++ JS.toString t1 in
  t2 <- now ;;
  let exitCodeFile := "/tmp/claude-relay-exit-" ++ JS.toString t2 in
  ret (outputFile, exitCodeFile).

(** The wait loop (index.ts, 77-91).  [Some r]: the loop body returned
    [r]; [None]: the loop condition failed, the deadline is reached. *)
Fixpoint poll (fuel : nat) (startTime timeout : Z)
         (outputFile exitCodeFile : string) : M P (option ExecResult) :=
  match fuel with
  | O => fun st => (Pending, st)
  | S fuel' =>
      t <- now ;;
      if t - startTime <? timeout then
        check <- sshExec ("test -f " ++ exitCodeFile ++ " && cat " ++ exitCodeFile)
                         no_options ;;
        let exitCodeCheck := stdout check in
        if negb (JS.trim exitCodeCheck =? "")%string then
          out <- sshExec ("cat " ++ outputFile ++ " 2>/dev/null") no_options ;;
          let exitCode := JS.parseInt (JS.trim exitCodeCheck) in
          sshExec ("rm -f " ++ outputFile ++ " " ++ exitCodeFile) no_options ;;;
          ret (Some {| stdout := stdout out; stderr := ""; exitCode := exitCode |})
        else
          sleep 500 ;;;
          poll fuel' startTime timeout outputFile exitCodeFile
      else ret None
  end.

(** The first half of [tmuxExec] (index.ts, 57-76): name the two files,
    make sure the session exists, type the wrapped command into it, and
    note the time.  Returns the two file names and [startTime]. *)
Definition launch (command : string) : M P (string * string * Z) :=
  files <- temp_files ;;
  let outputFile := fst files in
  let exitCodeFile := snd files in
  sshExec ("tmux has-session -t " ++ TMUX_SESSION
           ++ " 2>/dev/null || tmux new-session -d -s " ++ TMUX_SESSION)
          no_options ;;;
  cwd <- get_cwd ;;
  let fullCommand :=
    match cwd with
    | Some d =>
        if JS.truthy d then "cd " ++ escapeShell d ++ " && " ++ command
        else command
    | None => command
    end in
  let wrappedCommand :=
    "{ " ++ fullCommand ++ " ; } > " ++ outputFile
    ++ " 2>&1; echo $? > " ++ exitCodeFile in
  sshExec ("tmux send-keys -t " ++ TMUX_SESSION ++ " "
           ++ escapeShell wrappedCommand ++ " Enter") no_options ;;;
  startTime <- now ;;
  ret (outputFile, exitCodeFile, startTime).

Definition timed_out : ExecResult :=
  {| stdout := ""; stderr := "Command timed out"; exitCode := JS.Num 124 |}.

(** Helper to run command in tmux and capture output (index.ts, 55-96). *)
Definition tmuxExec (fuel : nat) (command : string) (options : Options)
  : M P ExecResult :=
  let timeout := JS.or_number (timeout options) 60000 in
  '(outputFile, exitCodeFile, startTime) <- launch command ;;
  done <- poll fuel startTime timeout outputFile exitCodeFile ;;
  match done with
  | Some result => ret result
  | None =>
      (* Timeout - cleanup and return error *)
      sshExec ("rm -f " ++ outputFile ++ " " ++ exitCodeFile) no_options ;;;
      ret timed_out
  end.

End Bridge.

(** ** The tool handlers *)

(** Path resolution, written out in the same words in [remote_read]
    (151-154), [remote_write] (197-200), [remote_edit] (236-239) and
    [remote_cd] (371-374):
    [if (!filePath.startsWith("/") && currentWorkingDirectory)]. *)
Definition resolvePath (cwd : option string) (filePath : string) : string :=
  match cwd with
  | Some d =>
      if negb (JS.startsWith filePath "/") && JS.truthy d
      then d ++ "/" ++ filePath
      else filePath
  | None => filePath
  end.

(** The command of [remote_read] (index.ts, 156-164), for an offset and a
    limit that are integers; it prints them as the program does as long as
    they and [start + limit] are safe integers. *)
Definition read_command (fullPath : string) (offset limit : option JS.number)
  : string :=
  if JS.truthy_num offset || JS.truthy_num limit then
    let start := JS.or_number offset 1 in
    match limit with
    | Some (JS.Num l) =>
        if l =? 0
        then "tail -n +" ++ JS.toString start ++ " " ++ escapeShell fullPath ++ " | cat -n"
        else "sed -n '" ++ JS.toString start ++ "," ++ JS.toString (start + l - 1)
             ++ "p' " ++ escapeShell fullPath ++ " | cat -n"
    | _ => "tail -n +" ++ JS.toString start ++ " " ++ escapeShell fullPath ++ " | cat -n"
    end
  else "cat -n " ++ escapeShell fullPath.

(** The here-document of [remote_write] (203) and [remote_edit] (269). *)
Definition heredoc_command (fullPath content : string) : string :=
  "cat > " ++ escapeShell fullPath ++ " << 'REMOTERELAY_EOF'" ++ "
" ++ content ++ "
REMOTERELAY_EOF".

(** The command of [remote_grep] (index.ts, 340-344). *)
Definition grep_command (pattern dir : string) (include : option string) : string :=
  let command :=
    match include with
    | Some i =>
        if JS.truthy i
        then "grep -rn --include=" ++ escapeShell i ++ " "
             ++ escapeShell pattern ++ " " ++ escapeShell dir
        else "grep -rn " ++ escapeShell pattern ++ " " ++ escapeShell dir
    | None => "grep -rn " ++ escapeShell pattern ++ " " ++ escapeShell dir
    end in
  command ++ " 2>/dev/null | head -50".

Definition error_response (t : string) : Response :=
  {| text := t; isError := true |}.
Definition ok_response (t : string) : Response :=
  {| text := t; isError := false |}.

Section Tools.

Context {P : Platform}.

(** Tool: remote_read (index.ts, 149-184). *)
Definition remote_read (filePath : string) (offset limit : option JS.number)
  : M P Response :=
  try_catch
    (cwd <- get_cwd ;;
     let fullPath := resolvePath cwd filePath in
     let command := read_command fullPath offset limit in
     result <- sshExec command no_options ;;
     if negb (JS.number_eqb (exitCode result) (JS.Num 0)) then
       ret (error_response
              ("Error reading file: " ++ JS.or_str (stderr result) (stdout result)))
     else
       ret (ok_response (JS.or_str (stdout result) "(empty file)")))
    (fun error => ret (error_response ("Error: " ++ error))).

(** Tool: remote_write (index.ts, 195-222). *)
Definition remote_write (filePath content : string) : M P Response :=
  try_catch
    (cwd <- get_cwd ;;
     let fullPath := resolvePath cwd filePath in
     let command := heredoc_command fullPath content in
     result <- sshExec command no_options ;;
     if negb (JS.number_eqb (exitCode result) (JS.Num 0)) then
       ret (error_response ("Error writing file: " ++ stderr result))
     else
       ret (ok_response ("Successfully wrote to " ++ fullPath)))
    (fun error => ret (error_response ("Error: " ++ error))).

(** Tool: remote_edit (index.ts, 234-288). *)
Definition remote_edit (filePath old_string new_string : string) : M P Response :=
  try_catch
    (cwd <- get_cwd ;;
     let fullPath := resolvePath cwd filePath in
     readResult <- sshExec ("cat " ++ escapeShell fullPath) no_options ;;
     if negb (JS.number_eqb (exitCode readResult) (JS.Num 0)) then
       ret (error_response ("Error reading file: " ++ stderr readResult))
     else
       let originalContent := stdout readResult in
       let occurrences :=
         Z.of_nat (List.length (JS.split originalContent old_string)) - 1 in
       if occurrences =? 0 then
         ret (error_response "Error: old_string not found in file")
       else if occurrences >? 1 then
         ret (error_response
                ("Error: old_string found " ++ JS.toString occurrences
                 ++ " times. Please provide more context to make it unique."))
       else
         let newContent := JS.replace originalContent old_string new_string in
         let writeCommand := heredoc_command fullPath newContent in
         writeResult <- sshExec writeCommand no_options ;;
         if negb (JS.number_eqb (exitCode writeResult) (JS.Num 0)) then
           ret (error_response ("Error writing file: " ++ stderr writeResult))
         else
           ret (ok_response ("Successfully edited " ++ fullPath)))
    (fun error => ret (error_response ("Error: " ++ error))).

(** Tool: remote_grep (index.ts, 336-358). *)
Definition remote_grep (pattern : string) (searchPath include : option string)
  : M P Response :=
  try_catch
    (cwd <- get_cwd ;;
     let dir := JS.or_string searchPath (JS.or_string cwd ".") in
     let command := grep_command pattern dir include in
     result <- sshExec command no_options ;;
     let matches := JS.or_str (JS.trim (stdout result)) "(no matches)" in
     ret (ok_response ("Grep results for '" ++ pattern ++ "':
" ++ matches)))
    (fun error => ret (error_response ("Error: " ++ error))).

(** Tool: remote_cd (index.ts, 368-396). *)
Definition remote_cd (newPath : string) : M P Response :=
  try_catch
    (cwd <- get_cwd ;;
     let targetPath := resolvePath cwd newPath in
     result <- sshExec ("cd " ++ escapeShell targetPath ++ " && pwd") no_options ;;
     if negb (JS.number_eqb (exitCode result) (JS.Num 0)) then
       ret (error_response
              ("Error: Directory does not exist or is not accessible: " ++ newPath))
     else
       let d := JS.trim (stdout result) in
       set_cwd d ;;;
       ret (ok_response ("Working directory changed to: " ++ d)))
    (fun error => ret (error_response ("Error: " ++ error))).

(** Tool: remote_pwd (index.ts, 404-408). *)
Definition remote_pwd : M P Response :=
  cwd <- get_cwd ;;
  ret (ok_response
         ("Current working directory: "
          ++ JS.or_string cwd "(not set - use remote_cd to set)")).


End Tools.

(** ** The other tool handlers *)

(** The command of [remote_glob] (index.ts, 304). *)
Definition glob_command (dir pattern : string) : string :=
  "cd " ++ escapeShell dir ++ " && find . -type f -name " ++ escapeShell pattern
  ++ " 2>/dev/null | head -100 | sort".

(** The flags of [remote_ls] (index.ts, 423-426). *)
Definition ls_flags (all long : option bool) : string :=
  let flags := "" in
  let flags := if JS.truthy_bool all then flags ++ "a" else flags in
  let flags := if JS.truthy_bool long then flags ++ "l" else flags in
  if JS.truthy flags then "-" ++ flags else flags.

(** The command of [remote_ls] (index.ts, 428). *)
Definition ls_command (dir : string) (all long : option bool) : string :=
  "ls " ++ ls_flags all long ++ " " ++ escapeShell dir.

Section MoreTools.

Context {P : Platform}.

(** Tool: remote_bash (index.ts, 117-137). *)
Definition remote_bash (fuel : nat) (command : string) (timeout : option JS.number)
  : M P Response :=
  try_catch
    (result <- tmuxExec fuel command {| timeout := timeout |} ;;
     let output := JS.or_str (stdout result) "(no output)" in
     let status :=
       if JS.number_eqb (exitCode result) (JS.Num 0) then "success"
       else "failed (exit code: " ++ JS.number_toString (exitCode result) ++ ")" in
     cwd <- get_cwd ;;
     ret (ok_response
            ("Command: " ++ command ++ "
Status: " ++ status ++ "
Working directory: " ++ JS.or_string cwd "(not set)" ++ "

Output:
" ++ output)))
    (fun error => ret (error_response ("Error executing command: " ++ error))).

(** Tool: remote_glob (index.ts, 299-324). *)
Definition remote_glob (pattern : string) (searchPath : option string)
  : M P Response :=
  try_catch
    (cwd <- get_cwd ;;
     let dir := JS.or_string searchPath (JS.or_string cwd ".") in
     let command := glob_command dir pattern in
     result <- sshExec command no_options ;;
     if negb (JS.number_eqb (exitCode result) (JS.Num 0)) && JS.truthy (stderr result)
     then ret (error_response ("Error: " ++ stderr result))
     else
       let files := JS.or_str (JS.trim (stdout result)) "(no matches)" in
       ret (ok_response ("Files matching '" ++ pattern ++ "' in " ++ dir ++ ":
" ++ files)))
    (fun error => ret (error_response ("Error: " ++ error))).

(** Tool: remote_ls (index.ts, 420-447). *)
Definition remote_ls (dirPath : option string) (all long : option bool)
  : M P Response :=
  try_catch
    (cwd <- get_cwd ;;
     let dir := JS.or_string dirPath (JS.or_string cwd ".") in
     let command := ls_command dir all long in
     result <- sshExec command no_options ;;
     if negb (JS.number_eqb (exitCode result) (JS.Num 0)) then
       ret (error_response ("Error: " ++ JS.or_str (stderr result) (stdout result)))
     else
       ret (ok_response ("Contents of " ++ dir ++ ":
" ++ stdout result)))
    (fun error => ret (error_response ("Error: " ++ error))).

End MoreTools.

(** ** The remote side: a POSIX shell with [cat]

    The remote host is not part of the repository.  What follows is the
    fragment of the POSIX shell command language (XCU 2.2 Quoting, 2.3 Token
    Recognition, 2.7.4 Here-Document) and of [cat] that the commands of
    [remote_read], [remote_write] and [remote_edit] exercise.  Everything
    outside this fragment is [None]: the model says nothing about it. *)

Module Posix.

Definition nl : ascii := ascii_of_nat 10.
Definition tab : ascii := ascii_of_nat 9.

Definition snoc (s : string) (c : ascii) : string := s ++ String c EmptyString.

Inductive token : Type :=
| Word (quoted : bool) (s : string)   (* after quote removal *)
| Op (s : string).                    (* an unquoted operator *)

(** The token being read. *)
Inductive cur : Type :=
| NoTok
| InWord (quoted : bool) (s : string)
| InOp (s : string).

Inductive mode : Type :=
| Plain      (* outside quotes *)
| Single     (* between single quotes *)
| Escaped.   (* just after an unquoted backslash *)

Definition flush (c : cur) (acc : list token) : list token :=
  match c with
  | NoTok => acc
  | InWord q s => Word q s :: acc
  | InOp s => Op s :: acc
  end.

(** Add the character [a] to the word being read, starting one if needed. *)
Definition push (q : bool) (a : option ascii) (c : cur) (acc : list token)
  : cur * list token :=
  let add s := match a with Some x => snoc s x | None => s end in
  match c with
  | NoTok => (InWord q (add EmptyString), acc)
  | InWord q0 s => (InWord (q0 || q) (add s), acc)
  | InOp o => (InWord q (add EmptyString), Op o :: acc)
  end.

Definition push_op (a : ascii) (c : cur) (acc : list token) : cur * list token :=
  match c with
  | InOp o => (InOp (snoc o a), acc)
  | _ => (InOp (String a EmptyString), flush c acc)
  end.

Definition dquote : ascii := ascii_of_nat 34.

Definition is_blank (a : ascii) : bool := (a =? " ")%char || (a =? tab)%char.

Definition is_operator (a : ascii) : bool :=
  (a =? "<")%char || (a =? ">")%char || (a =? "|")%char
  || (a =? "&")%char || (a =? ";")%char.

(** Unquoted characters that start an expansion, a comment, a pattern or
    a compound command: outside the fragment. *)
Definition is_special (a : ascii) : bool :=
  (a =? "$")%char || (a =? "`")%char || (a =? dquote)%char
  || (a =? "*")%char || (a =? "?")%char || (a =? "[")%char || (a =? "]")%char
  || (a =? "#")%char || (a =? "~")%char || (a =? "(")%char || (a =? ")")%char
  || (a =? "{")%char || (a =? "}")%char || (a =? "!")%char || (a =? "=")%char
  || (a =? "%")%char.

(** A character that, unquoted, is simply part of a word. *)
Definition ordinary (a : ascii) : bool :=
  negb ((a =? "'")%char || (a =? "\")%char || is_blank a || (a =? nl)%char
        || is_operator a || is_special a).

Fixpoint all_ordinary (s : string) : bool :=
  match s with
  | EmptyString => true
  | String a s' => ordinary a && all_ordinary s'
  end.

(** Token recognition up to the first unquoted newline: the tokens of
    the first logical line, and the text after that newline. *)
Fixpoint lex (m : mode) (c : cur) (acc : list token) (s : string)
  : option (list token * string) :=
  match s with
  | EmptyString =>
      match m with
      | Plain => Some (rev (flush c acc), EmptyString)
      | _ => None
      end
  | String a s' =>
      match m with
      | Single =>
          if (a =? "'")%char then lex Plain c acc s'
          else let (c', acc') := push true (Some a) c acc in lex Single c' acc' s'
      | Escaped =>
          if (a =? nl)%char then lex Plain c acc s'
          else let (c', acc') := push true (Some a) c acc in lex Plain c' acc' s'
      | Plain =>
          if (a =? "'")%char then
            let (c', acc') := push true None c acc in lex Single c' acc' s'
          else if (a =? "\")%char then
            let (c', acc') := push true None c acc in lex Escaped c' acc' s'
          else if is_blank a then lex Plain NoTok (flush c acc) s'
          else if (a =? nl)%char then Some (rev (flush c acc), s')
          else if is_operator a then
            let (c', acc') := push_op a c acc in lex Plain c' acc' s'
          else if is_special a then None
          else let (c', acc') := push false (Some a) c acc in lex Plain c' acc' s'
      end
  end.

Definition tokens (s : string) : option (list token * string) :=
  lex Plain NoTok [] s.

(** Here-document with a quoted delimiter [d]: the body is every line up
    to the first line that is exactly [d], taken literally; the text after
    that line is left for the shell to run. *)
Fixpoint heredoc_go (d line body s : string) : option (string * string) :=
  match s with
  | EmptyString => if (line =? d)%string then Some (body, EmptyString) else None
  | String a s' =>
      if (a =? nl)%char then
        if (line =? d)%string then Some (body, s')
        else heredoc_go d EmptyString (body ++ snoc line nl) s'
      else heredoc_go d (snoc line a) body s'
  end.

Definition heredoc (d s : string) : option (string * string) :=
  heredoc_go d EmptyString EmptyString s.

(** [s] cut at every newline. *)
Fixpoint lines (s : string) : list string :=
  match s with
  | EmptyString => [EmptyString]
  | String a s' =>
      if (a =? nl)%char then EmptyString :: lines s'
      else match lines s' with
           | l :: ls => String a l :: ls
           | [] => [String a EmptyString]
           end
  end.

(** The lines [ls] with [line] put before the first of them. *)
Definition glue (line : string) (ls : list string) : list string :=
  match ls with
  | l :: ls' => (line ++ l) :: ls'
  | [] => [line]
  end.

(** The prefix [cat -n] puts before line [n]: the number right-aligned
    in six columns, then a TAB. *)
Fixpoint spaces (n : nat) : string :=
  match n with
  | O => EmptyString
  | S n' => String " " (spaces n')
  end.

Definition number_prefix (n : Z) : string :=
  let digits := JS.toString n in
  spaces (6 - String.length digits) ++ snoc digits tab.

Fixpoint cat_n_go (n : Z) (bol : bool) (s : string) : string :=
  match s with
  | EmptyString => EmptyString
  | String a s' =>
      (if bol then number_prefix n else EmptyString)
      ++ String a (if (a =? nl)%char then cat_n_go (n + 1) true s'
                   else cat_n_go n false s')
  end.

Definition cat_n (file : string) : string := cat_n_go 1 true file.


(** The files of the remote host, by name. *)
Definition store : Type := string -> option string.

Definition write (fs : store) (p body : string) : store :=
  fun q => if (q =? p)%string then Some body else fs q.

(** What the host does with a name.  The store holds the content of the
    regular files; the other names behave as the host decides. *)
Inductive node : Type :=
| Regular   (* a regular file, existing or that can be created: it keeps
               what is written to it *)
| Sink      (* takes what is written and keeps nothing, as /dev/null *)
| Refused   (* cannot be opened: a directory, a missing directory on the
               way, a missing permission *)
| Other.    (* anything else (a FIFO, a terminal): outside the fragment *)

Definition nodes : Type := string -> node.

(** An operand [cat] takes as a file name: not empty, and not starting
    with [-] (an option, or standard input). *)
Definition file_operand (p : string) : bool :=
  match p with
  | EmptyString => false
  | String a _ => negb (a =? "-")%char
  end.

Record reply : Type := mkReply {
  r_out : string;
  r_err : string;
  r_status : Z;
  r_fs : store
}.

(** How one command ends: with a reply, and the text after it still to
    be run; or never by itself, because it waits for a standard input that
    does not end. *)
Inductive step : Type :=
| Next (r : reply) (rest : string)
| Stuck.

Definition failed (fs : store) (msg : string) : reply :=
  {| r_out := ""; r_err := msg; r_status := 1; r_fs := fs |}.

(** [cat p] and [cat -n p]; [show] is what is printed of the file. *)
Definition cat (k : nodes) (fs : store) (show : string -> string) (p rest : string)
  : option step :=
  if file_operand p then
    match k p with
    | Regular =>
        match fs p with
        | Some file =>
            Some (Next {| r_out := show file; r_err := ""; r_status := 0;
                          r_fs := fs |} rest)
        | None =>
            Some (Next (failed fs ("cat: " ++ p ++ ": No such file or directory"))
                       rest)
        end
    | Sink =>
        Some (Next {| r_out := show ""; r_err := ""; r_status := 0; r_fs := fs |}
                   rest)
    | Refused => Some (Next (failed fs ("cat: " ++ p ++ ": cannot open")) rest)
    | Other => None
    end
  else if (p =? "")%string then
    Some (Next (failed fs "cat: '': No such file or directory") rest)
  else if (p =? "-")%string then Some Stuck     (* standard input *)
  else None.                                    (* an option of [cat] *)

(** One command of the fragment, given its tokens and the text after its
    line. *)
Definition exec (k : nodes) (fs : store) (toks : list token) (rest : string)
  : option step :=
  match toks with
  | [Word _ "cat"; Op ">"; Word _ p; Op "<<"; Word true d] =>
      match heredoc d rest with
      | Some (body, rest') =>
          if (p =? "")%string
          then Some (Next (failed fs "sh: cannot create : No such file or directory")
                          rest')
          else
            match k p with
            | Regular =>
                Some (Next {| r_out := ""; r_err := ""; r_status := 0;
                              r_fs := write fs p body |} rest')
            | Sink =>
                Some (Next {| r_out := ""; r_err := ""; r_status := 0; r_fs := fs |}
                           rest')
            | Refused =>
                Some (Next (failed fs ("sh: cannot create " ++ p)) rest')
            | Other => None
            end
      | None => None
      end
  | [Word _ "cat"; Word _ "-n"; Word _ p] => cat k fs cat_n p rest
  | [Word _ "cat"; Word _ p] => cat k fs (fun file => file) p rest
  | _ => None
  end.

(** How a script ends: every command has run, or one of them is stuck. *)
Inductive ending : Type :=
| Exit (r : reply)
| Hung (r : reply).

(** [sh -c script]: the commands one after the other; the output is
    what they print together, the status is that of the last one. *)
Fixpoint run (k : nodes) (fuel : nat) (acc : reply) (script : string)
  : option ending :=
  match fuel with
  | O => None
  | S fuel' =>
      if (script =? "")%string then Some (Exit acc)
      else
        match tokens script with
        | Some ([], rest) => run k fuel' acc rest
        | Some (toks, rest) =>
            match exec k (r_fs acc) toks rest with
            | Some (Next r rest') =>
                run k fuel'
                    {| r_out := r_out acc ++ r_out r;
                       r_err := r_err acc ++ r_err r;
                       r_status := r_status r;
                       r_fs := r_fs r |} rest'
            | Some Stuck => Some (Hung acc)
            | None => None
            end
        | None => None
        end
  end.

Definition sh (k : nodes) (fs : store) (script : string) : option ending :=
  run k (S (String.length script))
      {| r_out := ""; r_err := ""; r_status := 0; r_fs := fs |} script.

End Posix.

(** ** Two concrete platforms *)

(** A remote host that runs the shell fragment above: every [ssh] child
    that the local system accepts hands its command to [Posix.sh]; one
    round trip takes 20 ms.  The text of a child is taken as delivered
    whole; the program decodes it chunk by chunk (index.ts, 41-42), which is
    the same thing for ASCII text only. *)
Module Remote.

(** U+0000 in a string: [spawn] refuses such an argument. *)
Fixpoint has_nul (s : string) : bool :=
  match s with
  | EmptyString => false
  | String a s' => (nat_of_ascii a =? 0)%nat || has_nul s'
  end.

(** The number of bytes of a string when it is passed as an argument. *)
Fixpoint utf8_length (s : string) : Z :=
  match s with
  | EmptyString => 0
  | String a s' => (if (nat_of_ascii a <? 128)%nat then 1 else 2) + utf8_length s'
  end.

(** A text of ASCII characters other than U+0000. *)
Fixpoint ascii_text (s : string) : bool :=
  match s with
  | EmptyString => true
  | String a s' =>
      negb (nat_of_ascii a =? 0)%nat && (nat_of_ascii a <? 128)%nat && ascii_text s'
  end.

Record host : Type := mkHost {
  files : Posix.store;
  clock : Z;
  (** what each name is on this host *)
  nodes : Posix.nodes;
  (** the size, in bytes, that one argument of a command must stay under
      (131072 on Linux) *)
  arg_max : Z
}.

(** Why the local system does not start a child with these arguments. *)
Definition refusal (h : host) (argv : list string) : option string :=
  if existsb has_nul argv
  then Some "TypeError [ERR_INVALID_ARG_VALUE]: argument must be a string without null bytes"
  else if existsb (fun a => arg_max h <=? utf8_length a) argv
       then Some "Error: spawn E2BIG"
       else None.

Definition run_ssh (file : string) (args : list string) (timeout : Z) (h : host)
  : ChildEvent * host :=
  match refusal h (file :: args) with
  | Some e => (Error e, h)
  | None =>
      match Posix.sh (nodes h) (files h) (last args "") with
      | Some (Posix.Exit r) =>
          (Close (Posix.r_out r) (Posix.r_err r) (Some (Posix.r_status r)),
           {| files := Posix.r_fs r; clock := clock h + 20;
              nodes := nodes h; arg_max := arg_max h |})
      | Some (Posix.Hung r) =>
          (* the child is killed when its time is over: no exit status *)
          (Close (Posix.r_out r) (Posix.r_err r) None,
           {| files := Posix.r_fs r; clock := clock h + timeout;
              nodes := nodes h; arg_max := arg_max h |})
      | None => (Error "command outside the modelled shell fragment", h)
      end
  end.

Definition platform : Platform := {|
  World := host;
  Date_now := fun h => (clock h, h);
  spawn := run_ssh;
  setTimeout := fun ms h =>
    {| files := files h; clock := clock h + ms;
       nodes := nodes h; arg_max := arg_max h |};
  env := fun _ => None;
  SSH_CONTROL_PATH := "/tmp/remoterelay-ssh-%r@%h:%p"
|}.

Definition empty : Posix.store := fun _ => None.

(** A host on which every name is a regular file, with the argument limit
    of Linux. *)
Definition start (cwd : option string) (fs : Posix.store) : State platform :=
  @mkState platform cwd (mkHost fs 0 (fun _ => Posix.Regular) 131072).


End Remote.

(** A transport that answers from a script: the n-th child process reports
    the n-th event of the list, and the commands are logged.  The clock
    counts microseconds: reading it takes 1 us, a child process 20 ms. *)
Module Scripted.

Record tape : Type := mkTape {
  clock_us : Z;
  replies : list ChildEvent;
  log : list string
}.

Definition run_ssh (file : string) (args : list string) (timeout : Z) (t : tape)
  : ChildEvent * tape :=
  match replies t with
  | ev :: evs =>
      (ev, {| clock_us := clock_us t + 20000; replies := evs;
              log := log t ++ [last args ""] |})
  | [] =>
      (Error "spawn ssh ENOENT",
       {| clock_us := clock_us t; replies := [];
          log := log t ++ [last args ""] |})
  end.

Definition platform : Platform := {|
  World := tape;
  Date_now := fun t =>
    (clock_us t / 1000,
     {| clock_us := clock_us t + 1; replies := replies t; log := log t |});
  spawn := run_ssh;
  setTimeout := fun ms t =>
    {| clock_us := clock_us t + 1000 * ms; replies := replies t; log := log t |};
  env := fun _ => None;
  SSH_CONTROL_PATH := "/tmp/remoterelay-ssh-%r@%h:%p"
|}.

Definition start (cwd : option string) (us : Z) (evs : list ChildEvent)
  : State platform :=
  @mkState platform cwd (mkTape us evs []).

Definition ok (out : string) : ChildEvent := Close out "" (Some 0).

End Scripted.

(** ** Notions used to state the properties *)

(** A computation that leaves [currentWorkingDirectory] as it found it. *)
Definition keeps_cwd {P : Platform} {A : Type} (m : M P A) : Prop :=
  forall st, currentWorkingDirectory (snd (m st)) = currentWorkingDirectory st.

(** A computation that settles: it is fulfilled or rejected, never left
    waiting for fuel. *)
Definition settles {P : Platform} {A : Type} (m : M P A) : Prop :=
  forall st, fst (m st) <> Pending.


(** A computation that is always fulfilled. *)
Definition fulfils {P : Platform} {A : Type} (m : M P A) : Prop :=
  forall st, exists a, fst (m st) = Ret a.

(** * Properties *)

(** ** The built-ins on small inputs *)

Example ex_replace_plain : JS.replace "abc" "b" "x" = "axc".
Proof. reflexivity. Qed.

Example ex_replace_first_only : JS.replace "abab" "b" "x" = "axab".
Proof. reflexivity. Qed.

Example ex_replace_patterns :
  JS.replace "abc" "b" "[$&$&]" = "a[bb]c"
  /\ JS.replace "abc" "b" "$`" = "aac"
  /\ JS.replace "abc" "b" "$'" = "acc"
  /\ JS.replace "abc" "b" "$1 $" = "a$1 $c".
Proof. repeat split. Qed.

Example ex_split :
  JS.split "a,b,,c" "," = ["a"; "b"; ""; "c"]
  /\ JS.split "aaa" "aa" = [""; "a"]
  /\ JS.split "" "a" = [""]
  /\ JS.split "" "" = []
  /\ JS.split "ab" "" = ["a"; "b"].
Proof. repeat split. Qed.

Example ex_trim : JS.trim "  /var/log
" = "/var/log".
Proof. reflexivity. Qed.

Example ex_parseInt :
  JS.parseInt "127" = JS.Num 127 /\ JS.parseInt "x" = JS.NaN
  /\ JS.parseInt " -3x" = JS.Num (-3).
Proof. repeat split. Qed.

Example ex_toString :
  JS.toString 1700000000123 = "1700000000123" /\ JS.toString (-5) = "-5"
  /\ JS.toString 0 = "0".
Proof. repeat split. Qed.

Example ex_escapeShell : escapeShell "it's" = "'it'\''s'".
Proof. reflexivity. Qed.

(** ** Strings *)

Lemma append_nil_r (s : string) : s ++ "" = s.
Proof. induction s as [|a s IH]; simpl; [reflexivity | now rewrite IH]. Qed.

Lemma append_assoc (a b c : string) : (a ++ b) ++ c = a ++ (b ++ c).
Proof. induction a as [|x a IH]; simpl; [reflexivity | now rewrite IH]. Qed.

Lemma snoc_append (w : string) (a : ascii) (s : string) :
  Posix.snoc w a ++ s = w ++ String a s.
Proof. unfold Posix.snoc. now rewrite append_assoc. Qed.

Lemma toString_inj (a b : Z) : JS.toString a = JS.toString b -> a = b.
Proof.
  unfold JS.toString. intros H.
  apply DecimalZ.to_int_inj.
  assert (E : Some (Z.to_int a) = Some (Z.to_int b)).
  { rewrite <- (NilEmpty.isi (Z.to_int a)), <- (NilEmpty.isi (Z.to_int b)).
    now rewrite H. }
  now injection E.
Qed.

Lemma number_eqb_zero (n : JS.number) :
  JS.number_eqb n (JS.Num 0) = true <-> n = JS.Num 0.
Proof.
  destruct n as [z|]; simpl.
  - rewrite Z.eqb_eq. split; [now intros -> | congruence].
  - split; discriminate.
Qed.

(** ** The state monad *)

(** Open the handlers down to the calls of [sshExec]. *)
Ltac open_handler :=
  unfold remote_read, remote_write, remote_edit, remote_grep, remote_cd,
         try_catch, bind, get_cwd, set_cwd, ret.

Section MonadFacts.

Context {P : Platform}.

Lemma sshExec_cwd command options (st : State P) :
  currentWorkingDirectory (snd (sshExec command options st))
  = currentWorkingDirectory st.
Proof.
  unfold sshExec, settle.
  destruct (spawn _ _ _ _) as [[out err code|e] w]; reflexivity.
Qed.

Lemma sshExec_not_pending command options (st : State P) :
  fst (sshExec command options st) <> Pending.
Proof.
  unfold sshExec, settle.
  destruct (spawn _ _ _ _) as [[out err code|e] w]; discriminate.
Qed.

End MonadFacts.

(** ** Reading a decimal number back *)

Ltac eval_digit :=
  match goal with
  | |- context [JS.digit ?c] =>
      let v := eval vm_compute in (JS.digit c) in change (JS.digit c) with v
  end.

Lemma digits_of_uint_acc (d : Decimal.uint) :
  forall (acc : positive) (t : string),
    JS.digits (Some (Z.pos acc)) (NilEmpty.string_of_uint d ++ t)
    = JS.digits (Some (Z.pos (Pos.of_uint_acc d acc))) t.
Proof.
  induction d; intros acc t; [reflexivity | ..];
    cbn [NilEmpty.string_of_uint Pos.of_uint_acc append JS.digits];
    rewrite <- IHd; eval_digit; cbv iota; do 2 f_equal; lia.
Qed.

Lemma digits_of_uint (d : Decimal.uint) (t : string) :
  JS.digits (Some 0) (NilEmpty.string_of_uint d ++ t)
  = JS.digits (Some (Z.of_uint d)) t.
Proof.
  unfold Z.of_uint.
  induction d; [reflexivity | ..];
    cbn [NilEmpty.string_of_uint Pos.of_uint append JS.digits];
    eval_digit; cbv iota;
    [exact IHd | ..];
    cbn [Z.of_N]; rewrite <- digits_of_uint_acc; reflexivity.
Qed.

Lemma digits_start (d : Decimal.uint) (t : string) :
  d <> Decimal.Nil ->
  JS.digits None (NilEmpty.string_of_uint d ++ t)
  = JS.digits (Some 0) (NilEmpty.string_of_uint d ++ t).
Proof.
  destruct d; [contradiction | ..]; reflexivity.
Qed.

Lemma trimEnd_uint (d : Decimal.uint) :
  JS.trimEnd (NilEmpty.string_of_uint d ++ String Posix.nl "")
  = NilEmpty.string_of_uint d.
Proof.
  induction d; [reflexivity | ..];
    cbn [NilEmpty.string_of_uint append JS.trimEnd]; rewrite IHd; reflexivity.
Qed.

Lemma uint_no_sign (d : Decimal.uint) :
  d <> Decimal.Nil ->
  JS.trimStart (NilEmpty.string_of_uint d) = NilEmpty.string_of_uint d
  /\ JS.parseInt (NilEmpty.string_of_uint d)
     = match JS.digits None (NilEmpty.string_of_uint d) with
       | Some z => JS.Num z
       | None => JS.NaN
       end.
Proof.
  destruct d; [contradiction | ..]; intros _; split; reflexivity.
Qed.

Lemma trimStart_uint (d : Decimal.uint) (t : string) :
  d <> Decimal.Nil ->
  JS.trimStart (NilEmpty.string_of_uint d ++ t) = NilEmpty.string_of_uint d ++ t.
Proof.
  destruct d; [contradiction | ..]; reflexivity.
Qed.

Lemma exit_status_round_trip_aux (n : Z) :
  0 <= n ->
  let written := JS.toString n ++ String Posix.nl "" in
  JS.trim written <> "" /\ JS.parseInt (JS.trim written) = JS.Num n.
Proof.
  intros Hn written.
  assert (H : exists d, JS.toString n = NilEmpty.string_of_uint d
                        /\ d <> Decimal.Nil /\ Z.of_uint d = n).
  { unfold JS.toString. destruct n as [|p|p]; [| |lia].
    - exists (Decimal.D0 Decimal.Nil). repeat split. discriminate.
    - exists (Pos.to_uint p). repeat split.
      + apply DecimalPos.Unsigned.to_uint_nonnil.
      + unfold Z.of_uint. now rewrite DecimalPos.Unsigned.of_to. }
  destruct H as [d [Hs [Hd Hv]]].
  assert (Ht : JS.trim written = NilEmpty.string_of_uint d).
  { unfold written, JS.trim. rewrite Hs, trimStart_uint by assumption.
    apply trimEnd_uint. }
  rewrite Ht. split.
  - destruct d; [contradiction | ..]; discriminate.
  - rewrite (proj2 (uint_no_sign d Hd)).
    rewrite <- (append_nil_r (NilEmpty.string_of_uint d)).
    rewrite digits_start, digits_of_uint by assumption.
    cbn [JS.digits]. now rewrite Hv.
Qed.

(** ** C8, C10: the Connector's defaults *)

(** C8.  When the [ssh] child closes without an exit status, [sshExec]
    resolves with [exitCode] 0; and when the caller gives no timeout, the
    child is spawned with a timeout of 60000 ms. *)
Theorem sshExec_missing_status_and_default_timeout
        {P : Platform} (command : string) (st : State P) :
  (forall options out err w,
      spawn "ssh" (sshArgs command) (JS.or_number (timeout options) 60000) (world st)
      = (Close out err None, w) ->
      fst (sshExec command options st)
      = Ret {| stdout := out; stderr := err; exitCode := JS.Num 0 |})
  /\ sshExec command no_options st
     = settle st (spawn "ssh" (sshArgs command) 60000 (world st)).
Proof.
  split.
  - intros options out err w H. unfold sshExec. rewrite H. reflexivity.
  - reflexivity.
Qed.

Lemma sshExec_missing_status_witness :
  fst (sshExec (P := Scripted.platform) "true" no_options
               (Scripted.start None 0 [Close "" "" None]))
  = Ret {| stdout := ""; stderr := ""; exitCode := JS.Num 0 |}.
Proof.
  apply (proj1 (sshExec_missing_status_and_default_timeout
                  (P := Scripted.platform) "true"
                  (Scripted.start None 0 [Close "" "" None]))
               no_options "" "" (Scripted.mkTape 20000 [] ["true"])).
  reflexivity.
Defined.

(** C10.  A timeout of 0 is falsy: [sshExec] and [tmuxExec] then do exactly
    what they do without a timeout, and the deadline is 60000 ms.  For
    [sshExec] the child is spawned with a timeout of 60000.  For [tmuxExec]
    the wait loop runs against 60000: a first look at the clock less than
    60000 ms after the start finds the loop open (the status the command
    has written is returned, not a timeout), and only a reading of 60000
    ms or more ends the call as timed out. *)
Theorem zero_timeout_is_default
        {P : Platform} (fuel : nat) (command : string) (st : State P) :
  let zero := {| timeout := Some (JS.Num 0) |} in
  JS.or_number (timeout zero) 60000 = 60000
  /\ sshExec command zero st = sshExec command no_options st
  /\ sshExec command zero st
     = settle st (spawn "ssh" (sshArgs command) 60000 (world st))
  /\ tmuxExec fuel command zero st = tmuxExec fuel command no_options st
  /\ (forall outputFile exitCodeFile startTime s1,
        launch command st = (Ret (outputFile, exitCodeFile, startTime), s1) ->
        tmuxExec fuel command zero st
        = (done <- poll fuel startTime 60000 outputFile exitCodeFile ;;
           match done with
           | Some result => ret result
           | None =>
               sshExec ("rm -f " ++ outputFile ++ " " ++ exitCodeFile) no_options ;;;
               ret timed_out
           end) s1)
  /\ (forall outputFile exitCodeFile startTime s1 t s2,
        launch command st = (Ret (outputFile, exitCodeFile, startTime), s1) ->
        now s1 = (Ret t, s2) ->
        (60000 <= t - startTime ->
         forall r s3,
           sshExec ("rm -f " ++ outputFile ++ " " ++ exitCodeFile) no_options s2
           = (Ret r, s3) ->
           tmuxExec (S fuel) command zero st = (Ret timed_out, s3))
        /\ (t - startTime < 60000 ->
            forall check s3 n out s4 r s5,
              sshExec ("test -f " ++ exitCodeFile ++ " && cat " ++ exitCodeFile)
                      no_options s2 = (Ret check, s3) ->
              0 <= n ->
              stdout check = JS.toString n ++ String Posix.nl "" ->
              sshExec ("cat " ++ outputFile ++ " 2>/dev/null") no_options s3
              = (Ret out, s4) ->
              sshExec ("rm -f " ++ outputFile ++ " " ++ exitCodeFile) no_options s4
              = (Ret r, s5) ->
              tmuxExec (S fuel) command zero st
              = (Ret {| stdout := stdout out; stderr := ""; exitCode := JS.Num n |},
                 s5))).
Proof.
  intros zero.
  split; [reflexivity|]. split; [reflexivity|]. split; [reflexivity|].
  split; [reflexivity|]. split.
  - intros o e t0 s1 Hl. unfold tmuxExec. unfold bind at 1. rewrite Hl. reflexivity.
  - intros o e t0 s1 t s2 Hl Hnow. split.
    + intros Hlate r s3 Hrm.
      unfold tmuxExec. unfold bind at 1. rewrite Hl.
      cbn [timeout zero JS.or_number Z.eqb poll]. unfold bind. rewrite Hnow.
      apply Z.ltb_ge in Hlate. rewrite Hlate. unfold ret. rewrite Hrm. reflexivity.
    + intros Hearly check s3 n out s4 r s5 Hcheck Hn Hs Hcat Hrm.
      destruct (exit_status_round_trip_aux n Hn) as [Hne Hp].
      unfold tmuxExec. unfold bind at 1. rewrite Hl.
      cbn [timeout zero JS.or_number Z.eqb poll]. unfold bind. rewrite Hnow.
      apply Z.ltb_lt in Hearly. rewrite Hearly, Hcheck, Hs.
      apply String.eqb_neq in Hne. rewrite Hne. cbn [negb].
      rewrite Hcat, Hrm, Hp. reflexivity.
Qed.

Lemma zero_timeout_is_default_witness :
  fst (tmuxExec (P := Scripted.platform) 1 "make" {| timeout := Some (JS.Num 0) |}
                (Scripted.start None 0
                   [Scripted.ok ""; Scripted.ok ""; Scripted.ok "2
"; Scripted.ok "make: *** [all] Error 2"; Scripted.ok ""]))
  = Ret {| stdout := "make: *** [all] Error 2"; stderr := ""; exitCode := JS.Num 2 |}.
Proof.
  set (st := Scripted.start None 0
               [Scripted.ok ""; Scripted.ok ""; Scripted.ok "2
"; Scripted.ok "make: *** [all] Error 2"; Scripted.ok ""]).
  pose proof (proj2 (proj2 (proj2 (proj2 (proj2
                (zero_timeout_is_default (P := Scripted.platform) 0 "make" st)))))
                "/tmp/claude-relay-output-0" "/tmp/claude-relay-exit-0" 40
                (snd (launch "make" st)) 40 (snd (now (snd (launch "make" st))))
                eq_refl eq_refl) as [_ H].
  rewrite (H ltac:(lia)
             {| stdout := "2
"; stderr := ""; exitCode := JS.Num 0 |} _ 2
             {| stdout := "make: *** [all] Error 2"; stderr := ""; exitCode := JS.Num 0 |}
             _ {| stdout := ""; stderr := ""; exitCode := JS.Num 0 |} _
             eq_refl ltac:(lia) eq_refl eq_refl eq_refl).
  reflexivity.
Defined.

(** ** C9: search never reports a remote failure *)

(** C9.  Whenever the remote command of [remote_grep] completes, the
    response is flagged as a success and is computed from the standard
    output alone: the exit code is not looked at, so a failing [grep] with
    no output answers "(no matches)" like a search that found nothing. *)
Theorem remote_grep_ignores_exit_code
        {P : Platform} (pattern : string) (searchPath include : option string)
        (st st' : State P) (result : ExecResult) :
  let dir := JS.or_string searchPath (JS.or_string (currentWorkingDirectory st) ".") in
  sshExec (grep_command pattern dir include) no_options st = (Ret result, st') ->
  remote_grep pattern searchPath include st
  = (Ret {| text := "Grep results for '" ++ pattern ++ "':
" ++ JS.or_str (JS.trim (stdout result)) "(no matches)";
            isError := false |}, st')
  /\ (JS.trim (stdout result) = "" ->
      fst (remote_grep pattern searchPath include st)
      = Ret {| text := "Grep results for '" ++ pattern ++ "':
(no matches)"; isError := false |}).
Proof.
  intros dir H.
  assert (E : remote_grep pattern searchPath include st
              = (Ret {| text := "Grep results for '" ++ pattern ++ "':
" ++ JS.or_str (JS.trim (stdout result)) "(no matches)";
                        isError := false |}, st')).
  { open_handler. fold dir. rewrite H. reflexivity. }
  split; [exact E|].
  intros Hempty. rewrite E, Hempty. reflexivity.
Qed.

Lemma remote_grep_ignores_exit_code_witness :
  fst (remote_grep (P := Scripted.platform) "TODO" (Some "/nonexistent") None
                   (Scripted.start None 0 [Close "" "" (Some 2)]))
  = Ret {| text := "Grep results for 'TODO':
(no matches)"; isError := false |}.
Proof.
  refine (proj2 (remote_grep_ignores_exit_code
                   (P := Scripted.platform) "TODO" (Some "/nonexistent") None
                   (Scripted.start None 0 [Close "" "" (Some 2)])
                   _ {| stdout := ""; stderr := ""; exitCode := JS.Num 2 |} _) _);
    reflexivity.
Defined.

(** ** C3: change of directory *)

(** C3.  [remote_cd] probes the target with [cd ... && pwd].  When the probe
    reports a non-zero exit code the working directory is what it was; when
    it reports 0 the working directory becomes the trimmed output of the
    probe.  A probe that cannot be run at all leaves it unchanged too. *)
Theorem remote_cd_state {P : Platform} (newPath : string) (st : State P) :
  let targetPath := resolvePath (currentWorkingDirectory st) newPath in
  let probe := sshExec ("cd " ++ escapeShell targetPath ++ " && pwd") no_options st in
  let after := currentWorkingDirectory (snd (remote_cd newPath st)) in
  (forall result st', probe = (Ret result, st') ->
     exitCode result <> JS.Num 0 -> after = currentWorkingDirectory st)
  /\ (forall result st', probe = (Ret result, st') ->
        exitCode result = JS.Num 0 -> after = Some (JS.trim (stdout result)))
  /\ (forall e st', probe = (Throw e, st') -> after = currentWorkingDirectory st).
Proof.
  intros targetPath probe after.
  assert (Hcwd : forall o st', probe = (o, st') ->
                   currentWorkingDirectory st' = currentWorkingDirectory st).
  { intros o st' H. pose proof (sshExec_cwd ("cd " ++ escapeShell targetPath ++ " && pwd")
                                            no_options st) as E.
    fold probe in E. now rewrite H in E. }
  unfold after. open_handler. fold targetPath. fold probe.
  repeat split.
  - intros result st' H Hne. rewrite H.
    destruct (JS.number_eqb (exitCode result) (JS.Num 0)) eqn:E.
    + apply number_eqb_zero in E. contradiction.
    + simpl. eauto.
  - intros result st' H He. rewrite H, He. reflexivity.
  - intros e st' H. rewrite H. simpl. eauto.
Qed.

Lemma remote_cd_state_witness :
  currentWorkingDirectory
    (snd (remote_cd (P := Scripted.platform) "log"
                    (Scripted.start (Some "/var") 0 [Scripted.ok "/var/log
"])))
  = Some "/var/log"
  /\ currentWorkingDirectory
       (snd (remote_cd (P := Scripted.platform) "nope"
                       (Scripted.start (Some "/var") 0 [Close "" "" (Some 1)])))
     = Some "/var".
Proof.
  split.
  - refine (proj1 (proj2 (remote_cd_state (P := Scripted.platform) "log"
                            (Scripted.start (Some "/var") 0 [Scripted.ok "/var/log
"])))
                  {| stdout := "/var/log
"; stderr := ""; exitCode := JS.Num 0 |} _ _ _); reflexivity.
  - refine (proj1 (remote_cd_state (P := Scripted.platform) "nope"
                     (Scripted.start (Some "/var") 0 [Close "" "" (Some 1)]))
                  {| stdout := ""; stderr := ""; exitCode := JS.Num 1 |} _ _ _).
    + reflexivity.
    + discriminate.
Defined.

(** ** C2: path resolution *)



(** The three handlers send commands built on the resolved path: with the
    working directory "/var/log", the relative path "syslog" reaches the
    remote host as "/var/log/syslog". *)
Example handlers_resolve_paths :
  let st := Scripted.start (Some "/var/log") 0
                           [Scripted.ok "x"; Scripted.ok ""] in
  Scripted.log (world (snd (remote_read "syslog" None None st)))
  = ["cat -n '/var/log/syslog'"]
  /\ Scripted.log (world (snd (remote_write "syslog" "x" st)))
     = ["cat > '/var/log/syslog' << 'REMOTERELAY_EOF'
x
REMOTERELAY_EOF"]
  /\ Scripted.log (world (snd (remote_edit "syslog" "x" "y" st)))
     = ["cat '/var/log/syslog'";
        "cat > '/var/log/syslog' << 'REMOTERELAY_EOF'
y
REMOTERELAY_EOF"].
Proof. split; [|split]; reflexivity. Qed.

(** ** C6: the temporary files of two calls *)

Section TempFiles.

Context {P : Platform}.

(** What [temp_files] returns, in terms of the two readings of the clock. *)
Lemma temp_files_eq (st : State P) :
  let r1 := Date_now (world st) in
  let r2 := Date_now (snd r1) in
  temp_files st
  = (Ret ("/tmp/claude-relay-output-" ++ JS.toString (fst r1),
          "/tmp/claude-relay-exit-" ++ JS.toString (fst r2)),
     {| currentWorkingDirectory := currentWorkingDirectory st;
        world := snd r2 |}).
Proof.
  unfold temp_files, bind, now, ret. simpl.
  destruct (Date_now (world st)) as [t1 w1]. simpl.
  destruct (Date_now w1) as [t2 w2]. reflexivity.
Qed.

(** C6, as the code has it.  The names are built from [Date.now()], so two
    calls get the same output file exactly when they read the same
    millisecond, and likewise for the exit-status file: the names of two
    calls differ if, and only if, their clock readings differ. *)
Theorem temp_files_distinct_iff_clock_differs
        (st1 st2 st1' st2' : State P) (o1 e1 o2 e2 : string) :
  temp_files st1 = (Ret (o1, e1), st1') ->
  temp_files st2 = (Ret (o2, e2), st2') ->
  let out_reading st := fst (Date_now (world st)) in
  let exit_reading st := fst (Date_now (snd (Date_now (world st)))) in
  (o1 <> o2 <-> out_reading st1 <> out_reading st2)
  /\ (e1 <> e2 <-> exit_reading st1 <> exit_reading st2).
Proof.
  intros H1 H2.
  rewrite temp_files_eq in H1, H2.
  injection H1 as <- <- _. injection H2 as <- <- _. cbv beta zeta.
  split; split; intros H E; apply H.
  - now rewrite E.
  - apply toString_inj. now injection E.
  - now rewrite E.
  - apply toString_inj. now injection E.
Qed.

End TempFiles.

Lemma temp_files_distinct_iff_clock_differs_witness :
  "/tmp/claude-relay-output-5" <> "/tmp/claude-relay-output-7"
  /\ "/tmp/claude-relay-exit-5" <> "/tmp/claude-relay-exit-7".
Proof.
  pose proof (temp_files_distinct_iff_clock_differs
                (P := Scripted.platform)
                (Scripted.start None 5000 []) (Scripted.start None 7000 [])
                _ _ _ _ _ _ eq_refl eq_refl) as [[_ Ho] [_ He]].
  split; [apply Ho | apply He]; vm_compute; discriminate.
Defined.

(** C6 as stated fails: two calls that allocate their files within the same
    millisecond (here the second right after the first, at t = 5000 ms) get
    the same output file and the same exit-status file. *)
Lemma temp_files_collide_within_a_millisecond :
  let st := Scripted.start None 5000000 [] in
  let first := temp_files st in
  let second := temp_files (snd first) in
  fst first = Ret ("/tmp/claude-relay-output-5000", "/tmp/claude-relay-exit-5000")
  /\ fst second = fst first.
Proof. split; reflexivity. Qed.

(** ** C4: the timeout path of the Bridge *)

(** C4, as the code has it.  When the wait loop of [tmuxExec] ends at the
    deadline, the call runs [rm -f] on both temporary files.  Whatever that
    command reports (its exit status is not looked at), the call then
    returns exit code 124 with the message "Command timed out".  But when
    the cleanup itself cannot be run (the Connector rejects), nothing
    catches the rejection and the whole call is rejected with it. *)
Theorem tmuxExec_deadline
        {P : Platform} (fuel : nat) (command : string) (options : Options)
        (st s1 s2 : State P) (outputFile exitCodeFile : string) (startTime : Z) :
  launch command st = (Ret (outputFile, exitCodeFile, startTime), s1) ->
  poll fuel startTime (JS.or_number (timeout options) 60000)
       outputFile exitCodeFile s1 = (Ret None, s2) ->
  let cleanup :=
    sshExec ("rm -f " ++ outputFile ++ " " ++ exitCodeFile) no_options s2 in
  (forall r s3, cleanup = (Ret r, s3) ->
     tmuxExec fuel command options st
     = (Ret {| stdout := ""; stderr := "Command timed out";
               exitCode := JS.Num 124 |}, s3))
  /\ (forall e s3, cleanup = (Throw e, s3) ->
        tmuxExec fuel command options st = (Throw e, s3)).
Proof.
  intros Hl Hp cleanup.
  unfold tmuxExec, bind. rewrite Hl, Hp. fold cleanup.
  split.
  - intros r s3 ->. reflexivity.
  - intros e s3 ->. reflexivity.
Qed.

Lemma tmuxExec_deadline_witness :
  fst (tmuxExec (P := Scripted.platform) 10 "sleep 100"
                {| timeout := Some (JS.Num 1) |}
                (Scripted.start None 5000000
                   [Scripted.ok ""; Scripted.ok ""; Scripted.ok "";
                    Close "" "rm: cannot remove" (Some 1)]))
  = Ret {| stdout := ""; stderr := "Command timed out"; exitCode := JS.Num 124 |}.
Proof.
  set (st := Scripted.start None 5000000
               [Scripted.ok ""; Scripted.ok ""; Scripted.ok "";
                Close "" "rm: cannot remove" (Some 1)]).
  pose proof (tmuxExec_deadline
                (P := Scripted.platform) 10 "sleep 100"
                {| timeout := Some (JS.Num 1) |} st
                (snd (launch "sleep 100" st))
                (snd (poll 10 5040 1 "/tmp/claude-relay-output-5000"
                           "/tmp/claude-relay-exit-5000"
                           (snd (launch "sleep 100" st))))
                "/tmp/claude-relay-output-5000" "/tmp/claude-relay-exit-5000" 5040
                eq_refl eq_refl) as [H _].
  now rewrite (H _ _ eq_refl).
Defined.

(** C4 as stated fails: the loop reaches the deadline without an exit
    status, the child that should run the cleanup cannot be spawned, and
    the call does not return 124; it is rejected. *)
Lemma tmuxExec_cleanup_failure_fails_the_call :
  let options := {| timeout := Some (JS.Num 1) |} in
  let st := Scripted.start None 5000000
              [Scripted.ok ""; Scripted.ok ""; Scripted.ok "";
               Error "spawn ssh EAGAIN"] in
  let launched := launch (P := Scripted.platform) "sleep 100" st in
  fst launched
  = Ret ("/tmp/claude-relay-output-5000", "/tmp/claude-relay-exit-5000", 5040)
  /\ fst (poll 10 5040 1 "/tmp/claude-relay-output-5000"
               "/tmp/claude-relay-exit-5000" (snd launched)) = Ret None
  /\ fst (tmuxExec 10 "sleep 100" options st) = Throw "spawn ssh EAGAIN"
  /\ fst (tmuxExec 10 "sleep 100" options st)
     <> Ret {| stdout := ""; stderr := "Command timed out"; exitCode := JS.Num 124 |}.
Proof. repeat split. discriminate. Qed.

(** ** C7: quoting for the remote shell *)

Lemma replace_quotes_app (s1 s2 r : string) :
  JS.replace_quotes (s1 ++ s2) r = JS.replace_quotes s1 r ++ JS.replace_quotes s2 r.
Proof.
  induction s1 as [|a s1 IH]; simpl; [reflexivity|].
  rewrite IH. destruct (a =? "'")%char; simpl; [now rewrite append_assoc | reflexivity].
Qed.

(** Between single quotes: the shell reads the escaped form of [s], up to
    the closing quote, as the characters of [s] added to the word. *)
Lemma lex_quoted_body (s : string) :
  forall (w : string) (acc : list Posix.token) (rest : string),
    Posix.lex Posix.Single (Posix.InWord true w) acc
              (JS.replace_quotes s "'\''" ++ String "'" rest)
    = Posix.lex Posix.Plain (Posix.InWord true (w ++ s)) acc rest.
Proof.
  induction s as [|a s IH]; intros w acc rest.
  - simpl. now rewrite append_nil_r.
  - simpl JS.replace_quotes.
    destruct (a =? "'")%char eqn:E.
    + apply Ascii.eqb_eq in E. subst a.
      change (("'\''" ++ JS.replace_quotes s "'\''") ++ String "'" rest)
        with (String "'" (String "\" (String "'" (String "'"
                (JS.replace_quotes s "'\''" ++ String "'" rest))))).
      cbn [Posix.lex Ascii.eqb Bool.eqb Posix.push orb Posix.is_blank Posix.nl
           Posix.tab ascii_of_nat].
      simpl. rewrite IH. now rewrite snoc_append.
    + simpl. rewrite E. rewrite IH. now rewrite snoc_append.
Qed.

(** In any position of a command line, [escapeShell s] adds exactly the
    characters of [s] to the word being read, as quoted text. *)
Lemma lex_escapeShell (s rest : string) (c : Posix.cur) (acc : list Posix.token) :
  Posix.lex Posix.Plain c acc (escapeShell s ++ rest)
  = match c with
    | Posix.NoTok => Posix.lex Posix.Plain (Posix.InWord true s) acc rest
    | Posix.InWord _ w => Posix.lex Posix.Plain (Posix.InWord true (w ++ s)) acc rest
    | Posix.InOp o =>
        Posix.lex Posix.Plain (Posix.InWord true s) (Posix.Op o :: acc) rest
    end.
Proof.
  unfold escapeShell.
  change (("'" ++ JS.replace_quotes s "'\''" ++ "'") ++ rest)
    with (String "'" ((JS.replace_quotes s "'\''" ++ "'") ++ rest)).
  rewrite append_assoc.
  change ("'" ++ rest) with (String "'" rest).
  destruct c as [|q w|o]; simpl.
  - now rewrite lex_quoted_body.
  - rewrite orb_true_r. now rewrite lex_quoted_body.
  - now rewrite lex_quoted_body.
Qed.

(** C7.  For every string [str], [escapeShell str] is a single-quoted form
    in which every single quote of [str] is written as quote, backslash,
    quote, quote (close, escaped quote, reopen), and the shell reads it as
    one word whose value is exactly [str]: no character of [str] splits
    the word or starts an expansion.  The same holds when the form is the
    argument of a command. *)
Theorem escapeShell_is_literal (str : string) :
  Posix.tokens (escapeShell str) = Some ([Posix.Word true str], "")
  /\ Posix.tokens ("cat " ++ escapeShell str)
     = Some ([Posix.Word false "cat"; Posix.Word true str], "")
  /\ (forall s1 s2, str = s1 ++ String "'" s2 ->
        escapeShell str
        = "'" ++ JS.replace_quotes s1 "'\''" ++ "'\''"
              ++ JS.replace_quotes s2 "'\''" ++ "'").
Proof.
  split; [|split].
  - unfold Posix.tokens.
    rewrite <- (append_nil_r (escapeShell str)), lex_escapeShell. reflexivity.
  - unfold Posix.tokens.
    assert (Hcat : forall x, Posix.lex Posix.Plain Posix.NoTok [] ("cat " ++ x)
                             = Posix.lex Posix.Plain Posix.NoTok
                                         [Posix.Word false "cat"] x)
      by reflexivity.
    rewrite Hcat, <- (append_nil_r (escapeShell str)), lex_escapeShell.
    reflexivity.
  - intros s1 s2 ->. unfold escapeShell.
    rewrite replace_quotes_app. simpl. now rewrite !append_assoc.
Qed.

Lemma escapeShell_is_literal_witness :
  escapeShell "it's; `id` $HOME *"
  = "'" ++ JS.replace_quotes "it" "'\''" ++ "'\''"
        ++ JS.replace_quotes "s; `id` $HOME *" "'\''" ++ "'".
Proof.
  apply (proj2 (proj2 (escapeShell_is_literal "it's; `id` $HOME *"))).
  reflexivity.
Defined.

(** ** C5: write, then read *)

Module PosixFacts.

Import Posix.

Lemma lines_cons (s : string) : exists l ls, lines s = l :: ls.
Proof.
  induction s as [|a s [l [ls IH]]]; simpl; [now eauto|].
  destruct (a =? nl)%char; [now eauto|]. rewrite IH. eauto.
Qed.



Lemma glue_lines_snoc (line : string) (a : ascii) (s : string) :
  (a =? nl)%char = false ->
  glue line (lines (String a s)) = glue (snoc line a) (lines s).
Proof.
  intros E. simpl. rewrite E.
  destruct (lines_cons s) as [l [ls ->]]. simpl. now rewrite snoc_append.
Qed.

(** A here-document whose lines are not the delimiter ends at the
    delimiter line the program adds, and holds every line of the
    content, newline included. *)
Lemma heredoc_go_content (content : string) :
  forall line body,
    ~ In "REMOTERELAY_EOF" (glue line (lines content)) ->
    heredoc_go "REMOTERELAY_EOF" line body
               (content ++ String nl "REMOTERELAY_EOF")
    = Some (body ++ line ++ content ++ String nl "", "").
Proof.
  induction content as [|a s IH]; intros line body H.
  - simpl in H. rewrite append_nil_r in H.
    assert (E : (line =? "REMOTERELAY_EOF")%string = false).
    { apply String.eqb_neq. intros ->. apply H. now left. }
    simpl. rewrite E. unfold snoc. reflexivity.
  - simpl append. simpl heredoc_go.
    destruct (a =? nl)%char eqn:E.
    + apply Ascii.eqb_eq in E. subst a.
      simpl in H. rewrite append_nil_r in H.
      assert (E : (line =? "REMOTERELAY_EOF")%string = false).
      { apply String.eqb_neq. intros ->. apply H. now left. }
      rewrite E, IH.
      * unfold snoc. simpl. now rewrite !append_assoc.
      * destruct (lines_cons s) as [l [ls Hl]]. rewrite Hl in *. simpl.
        intros [F|F]; apply H; right; [now left | now right].
    + rewrite IH.
      * now rewrite snoc_append.
      * now rewrite <- glue_lines_snoc.
Qed.

Lemma heredoc_content (content : string) :
  ~ In "REMOTERELAY_EOF" (lines content) ->
  heredoc "REMOTERELAY_EOF" (content ++ String nl "REMOTERELAY_EOF")
  = Some (content ++ String nl "", "").
Proof.
  intros H. unfold heredoc. rewrite heredoc_go_content; [reflexivity|].
  destruct (lines_cons content) as [l [ls Hl]]. now rewrite Hl in *.
Qed.

End PosixFacts.

Module ShFacts.

Import Posix.

(** A script of one command. *)
Lemma sh_single (k : nodes) (fs : store) (script rest : string)
      (toks : list token) (r : reply) :
  script <> "" ->
  tokens script = Some (toks, rest) ->
  toks <> [] ->
  exec k fs toks rest = Some (Next r "") ->
  sh k fs script = Some (Exit r).
Proof.
  intros Hne Ht Hts He. unfold sh.
  destruct script as [|a script]; [contradiction|].
  cbn [String.length run String.eqb]. rewrite Ht.
  destruct toks as [|t toks]; [contradiction|].
  cbn [r_fs]. rewrite He. destruct r. reflexivity.
Qed.

Lemma tokens_heredoc_command (fullPath content : string) :
  tokens (heredoc_command fullPath content)
  = Some ([Word false "cat"; Op ">"; Word true fullPath; Op "<<";
           Word true "REMOTERELAY_EOF"],
          content ++ String nl "REMOTERELAY_EOF").
Proof.
  unfold tokens, heredoc_command.
  assert (H1 : forall x, lex Plain NoTok [] ("cat > " ++ x)
                         = lex Plain NoTok [Op ">"; Word false "cat"] x)
    by reflexivity.
  assert (H2 : forall w acc y,
             lex Plain (InWord true w) acc
                 (" << 'REMOTERELAY_EOF'" ++ String nl y)
             = Some (rev (Word true "REMOTERELAY_EOF" :: Op "<<"
                               :: Word true w :: acc), y))
    by reflexivity.
  rewrite H1, lex_escapeShell.
  change (" << 'REMOTERELAY_EOF'" ++ "
" ++ content ++ "
REMOTERELAY_EOF")
    with (" << 'REMOTERELAY_EOF'" ++ String nl (content ++ String nl "REMOTERELAY_EOF")).
  rewrite H2. reflexivity.
Qed.

(** What the shell does with the here-document of the program, when the
    target is a regular file. *)
Lemma sh_heredoc_command (k : nodes) (fs : store) (fullPath content : string) :
  file_operand fullPath = true ->
  k fullPath = Regular ->
  ~ In "REMOTERELAY_EOF" (lines content) ->
  sh k fs (heredoc_command fullPath content)
  = Some (Exit {| r_out := ""; r_err := ""; r_status := 0;
                  r_fs := write fs fullPath (content ++ String nl "") |}).
Proof.
  intros Hp Hk Hc.
  eapply sh_single;
    [ discriminate
    | apply tokens_heredoc_command
    | discriminate
    | ].
  cbn [exec]. simpl.
  rewrite PosixFacts.heredoc_content by assumption.
  rewrite Hk. destruct fullPath; [discriminate | reflexivity].
Qed.

Lemma tokens_cat_n (fullPath : string) :
  tokens ("cat -n " ++ escapeShell fullPath)
  = Some ([Word false "cat"; Word false "-n"; Word true fullPath], "").
Proof.
  unfold tokens.
  assert (H1 : forall x, lex Plain NoTok [] ("cat -n " ++ x)
                         = lex Plain NoTok [Word false "-n"; Word false "cat"] x)
    by reflexivity.
  rewrite H1, <- (append_nil_r (escapeShell fullPath)), lex_escapeShell.
  reflexivity.
Qed.


End ShFacts.

(** What the local system accepts as an argument. *)
Module ArgFacts.

Import Remote.

(** Decide [has_nul] on the literal parts of a command. *)
Ltac eval_nul :=
  repeat match goal with
         | |- context [has_nul ?x] =>
             let v := eval vm_compute in (has_nul x) in
             match v with
             | true => change (has_nul x) with true
             | false => change (has_nul x) with false
             end
         end.

Lemma has_nul_app (a b : string) : has_nul (a ++ b) = has_nul a || has_nul b.
Proof.
  induction a as [|x a IH]; simpl; [reflexivity|].
  now rewrite IH, orb_assoc.
Qed.

Lemma has_nul_replace_quotes (s : string) :
  has_nul (JS.replace_quotes s "'\''") = has_nul s.
Proof.
  induction s as [|a s IH]; [reflexivity|].
  cbn [JS.replace_quotes]. destruct (a =? "'")%char eqn:E.
  - apply Ascii.eqb_eq in E. subst a. rewrite has_nul_app, IH. reflexivity.
  - cbn [append has_nul]. now rewrite IH.
Qed.

Lemma has_nul_escapeShell (s : string) : has_nul (escapeShell s) = has_nul s.
Proof.
  unfold escapeShell.
  rewrite !has_nul_app, has_nul_replace_quotes. eval_nul.
  cbn [orb]. now rewrite orb_false_r.
Qed.

Lemma ascii_text_no_nul (s : string) : ascii_text s = true -> has_nul s = false.
Proof.
  induction s as [|a s IH]; [reflexivity|].
  cbn [ascii_text has_nul]. intros H.
  apply andb_prop in H as [H Hs]. apply andb_prop in H as [Hz _].
  apply negb_true_iff in Hz. rewrite Hz. now apply IH.
Qed.

Lemma ascii_text_app (a b : string) :
  ascii_text (a ++ b) = ascii_text a && ascii_text b.
Proof.
  induction a as [|x a IH]; simpl; [reflexivity|].
  now rewrite IH, !andb_assoc.
Qed.

Lemma utf8_length_app (a b : string) :
  utf8_length (a ++ b) = utf8_length a + utf8_length b.
Proof.
  induction a as [|x a IH]; cbn [append utf8_length]; [reflexivity|].
  rewrite IH. lia.
Qed.

Lemma utf8_length_nonneg (s : string) : 0 <= utf8_length s.
Proof.
  induction s as [|a s IH]; cbn [utf8_length]; [lia|].
  destruct (nat_of_ascii a <? 128)%nat; lia.
Qed.

Lemma has_nul_heredoc_command (fullPath content : string) :
  has_nul (heredoc_command fullPath content) = has_nul fullPath || has_nul content.
Proof.
  unfold heredoc_command.
  rewrite !has_nul_app, has_nul_escapeShell. eval_nul.
  cbn [orb]. now rewrite !orb_false_r.
Qed.

Lemma utf8_length_heredoc_command (fullPath content : string) :
  utf8_length (heredoc_command fullPath content)
  = 44 + utf8_length (escapeShell fullPath) + utf8_length content.
Proof.
  unfold heredoc_command. rewrite !utf8_length_app.
  change (utf8_length "cat > ") with 6.
  change (utf8_length " << 'REMOTERELAY_EOF'") with 21.
  change (utf8_length "
") with 1.
  change (utf8_length "
REMOTERELAY_EOF") with 16.
  lia.
Qed.

(** A command without U+0000 and under the limit is handed to the child:
    the other arguments of [ssh] are short. *)
Lemma refusal_none (h : host) (command : string) :
  has_nul command = false ->
  41 < arg_max h ->
  utf8_length command < arg_max h ->
  refusal h ("ssh" :: @sshArgs platform command) = None.
Proof.
  intros Hn Hm Hl. unfold refusal.
  assert (E1 : existsb has_nul ("ssh" :: @sshArgs platform command) = false).
  { cbn [existsb sshArgs].
    change (@SSH_CONTROL_PATH platform) with "/tmp/remoterelay-ssh-%r@%h:%p".
    change (@SSH_HOST platform) with "quarry".
    eval_nul. now rewrite Hn. }
  rewrite E1.
  assert (E2 : existsb (fun a => arg_max h <=? utf8_length a)
                       ("ssh" :: @sshArgs platform command) = false).
  { cbn [existsb sshArgs].
    change (@SSH_CONTROL_PATH platform) with "/tmp/remoterelay-ssh-%r@%h:%p".
    change (@SSH_HOST platform) with "quarry".
    repeat match goal with
           | |- context [arg_max h <=? utf8_length ?a] =>
               let E := fresh "E" in
               assert (E : (arg_max h <=? utf8_length a) = false)
                 by (apply Z.leb_gt; first [exact Hl | vm_compute utf8_length; lia]);
               rewrite E; clear E
           end.
    reflexivity. }
  now rewrite E2.
Qed.

End ArgFacts.

(** On the modelled host, [sshExec] reports what the shell reports for a
    command that the local system accepts. *)
Lemma remote_sshExec (command : string) (options : Options)
      (st : State Remote.platform) (r : Posix.reply) :
  Remote.has_nul command = false ->
  41 < Remote.arg_max (world st) ->
  Remote.utf8_length command < Remote.arg_max (world st) ->
  Posix.sh (Remote.nodes (world st)) (Remote.files (world st)) command
  = Some (Posix.Exit r) ->
  sshExec command options st
  = (Ret {| stdout := Posix.r_out r; stderr := Posix.r_err r;
            exitCode := JS.Num (Posix.r_status r) |},
     @mkState Remote.platform (currentWorkingDirectory st)
              (Remote.mkHost (Posix.r_fs r) (Remote.clock (world st) + 20)
                             (Remote.nodes (world st)) (Remote.arg_max (world st)))).
Proof.
  intros Hn Hm Hl H. unfold sshExec, settle.
  change (@spawn Remote.platform) with Remote.run_ssh.
  unfold Remote.run_ssh.
  rewrite (ArgFacts.refusal_none (world st) command Hn Hm Hl).
  change (last (@sshArgs Remote.platform command) "") with command.
  rewrite H. reflexivity.
Qed.





(** ** C1: edit by string replacement *)

Lemma length_append (a b : string) :
  String.length (a ++ b) = (String.length a + String.length b)%nat.
Proof. induction a as [|x a IH]; simpl; [reflexivity | now rewrite IH]. Qed.

Lemma prefix_drop (p s : string) :
  String.prefix p s = true -> s = p ++ JS.drop (String.length p) s.
Proof.
  revert s. induction p as [|x p IH]; intros s H; [reflexivity|].
  destruct s as [|y s]; simpl in H; [discriminate|].
  destruct (ascii_dec x y) as [->|]; [|discriminate].
  simpl. f_equal. now apply IH.
Qed.

(** [find] returns the text around an occurrence of the needle. *)
Lemma find_sound (needle hay before after : string) :
  JS.find needle hay = Some (before, after) -> hay = before ++ needle ++ after.
Proof.
  revert before after. induction hay as [|c hay IH]; intros before after H.
  - cbn [JS.find] in H. destruct (String.prefix needle "") eqn:E; [|discriminate].
    injection H as <- <-. now apply prefix_drop in E.
  - cbn [JS.find] in H. destruct (String.prefix needle (String c hay)) eqn:E.
    + injection H as <- <-. now apply prefix_drop in E.
    + destruct (JS.find needle hay) as [[b a]|]; [|discriminate].
      injection H as <- <-. simpl. f_equal. now apply IH.
Qed.

Lemma find_shrinks (needle hay before after : string) :
  needle <> "" ->
  JS.find needle hay = Some (before, after) ->
  (String.length after < String.length hay)%nat.
Proof.
  intros Hn H. apply find_sound in H. subst hay.
  rewrite !length_append. destruct needle; [contradiction|]. simpl. lia.
Qed.

(** The fuel [split] gives to [split_from] is enough: more changes nothing. *)
Lemma split_from_fuel (sep : string) (Hsep : sep <> "") :
  forall fuel fuel' s,
    (String.length s <= fuel)%nat -> (String.length s <= fuel')%nat ->
    JS.split_from fuel sep s = JS.split_from fuel' sep s.
Proof.
  induction fuel as [|fuel IH]; intros fuel' s H H'.
  - destruct s; [|simpl in H; lia].
    assert (E : JS.find sep "" = None).
    { simpl. destruct sep; [contradiction | reflexivity]. }
    destruct fuel'; simpl; [reflexivity|]. cbn in E. now rewrite E.
  - destruct fuel' as [|fuel'].
    + destruct s; [|simpl in H'; lia].
      assert (E : JS.find sep "" = None).
      { simpl. destruct sep; [contradiction | reflexivity]. }
      simpl. cbn in E. now rewrite E.
    + simpl. destruct (JS.find sep s) as [[b a]|] eqn:E; [|reflexivity].
      f_equal. apply find_shrinks in E; [|assumption].
      apply IH; lia.
Qed.

Lemma split_from_nonempty (fuel : nat) (sep s : string) :
  (1 <= List.length (JS.split_from fuel sep s))%nat.
Proof.
  destruct fuel; simpl; [lia|].
  destruct (JS.find sep s) as [[b a]|]; simpl; lia.
Qed.

(** For a non-empty target, the count of [remote_edit] is 0 exactly when
    the target does not occur. *)
Lemma occurrences_zero_iff (content old_string : string) :
  old_string <> "" ->
  Z.of_nat (List.length (JS.split content old_string)) - 1 = 0
  <-> JS.find old_string content = None.
Proof.
  intros Hn. unfold JS.split.
  apply String.eqb_neq in Hn. rewrite Hn. apply String.eqb_neq in Hn.
  destruct (JS.find old_string content) as [[b a]|] eqn:E.
  - split; [|discriminate]. intros H. exfalso.
    destruct content as [|c content].
    + simpl in E. destruct old_string; [contradiction | discriminate].
    + cbn [String.length JS.split_from] in H. rewrite E in H.
      pose proof (split_from_nonempty (String.length content) old_string a).
      cbn [List.length] in H. lia.
  - split; [reflexivity|]. intros _.
    destruct (String.length content); simpl; [reflexivity | now rewrite E].
Qed.

(** A replacement text without [$] is inserted as it is. *)
Lemma GetSubstitution_plain (matched before after template : string) :
  JS.no_dollar template = true ->
  JS.GetSubstitution matched before after template = template.
Proof.
  induction template as [|a t IH]; [reflexivity|].
  simpl. intros H. apply andb_prop in H as [Ha Ht].
  apply negb_true_iff in Ha. rewrite Ha. now rewrite IH.
Qed.

Lemma replace_plain (content old_string new_string before after : string) :
  JS.find old_string content = Some (before, after) ->
  JS.no_dollar new_string = true ->
  content = before ++ old_string ++ after
  /\ JS.replace content old_string new_string = before ++ new_string ++ after.
Proof.
  intros Hf Hd. split; [now apply find_sound|].
  unfold JS.replace. rewrite Hf. now rewrite GetSubstitution_plain.
Qed.

(** What [remote_edit] does once the file has been read (exit code 0)
    with content [C]: by the count [n] of [C.split(old_string).length - 1],
    it answers "not found" ([n = 0]) or "found n times" ([n > 1]) and stops
    in the state the read left, without having run anything else; otherwise
    it sends the here-document with [C.replace(old_string, new_string)]. *)
Lemma remote_edit_cases
      {P : Platform} (filePath old_string new_string : string)
      (st st1 : State P) (readResult : ExecResult) :
  let fullPath := resolvePath (currentWorkingDirectory st) filePath in
  let C := stdout readResult in
  let n := Z.of_nat (List.length (JS.split C old_string)) - 1 in
  sshExec ("cat " ++ escapeShell fullPath) no_options st = (Ret readResult, st1) ->
  exitCode readResult = JS.Num 0 ->
  (n = 0 ->
   remote_edit filePath old_string new_string st
   = (Ret (error_response "Error: old_string not found in file"), st1))
  /\ (n > 1 ->
      remote_edit filePath old_string new_string st
      = (Ret (error_response
                ("Error: old_string found " ++ JS.toString n
                 ++ " times. Please provide more context to make it unique.")),
         st1))
  /\ (n <> 0 -> n <= 1 ->
      remote_edit filePath old_string new_string st
      = let (o, st2) :=
          sshExec (heredoc_command fullPath (JS.replace C old_string new_string))
                  no_options st1 in
        match o with
        | Ret writeResult =>
            (Ret (if negb (JS.number_eqb (exitCode writeResult) (JS.Num 0))
                  then error_response ("Error writing file: " ++ stderr writeResult)
                  else ok_response ("Successfully edited " ++ fullPath)), st2)
        | Throw e => (Ret (error_response ("Error: " ++ e)), st2)
        | Pending => (Pending, st2)
        end).
Proof.
  intros fullPath C n Hread Hexit.
  open_handler. fold fullPath. rewrite Hread, Hexit. cbn [JS.number_eqb Z.eqb negb].
  fold C. fold n.
  split; [|split].
  - intros ->. reflexivity.
  - intros Hn. destruct (n =? 0) eqn:E0; [apply Z.eqb_eq in E0; lia|].
    destruct (n >? 1) eqn:E1; [reflexivity|].
    rewrite Z.gtb_ltb in E1. apply Z.ltb_ge in E1. lia.
  - intros Hn0 Hn1. destruct (n =? 0) eqn:E0; [apply Z.eqb_eq in E0; lia|].
    destruct (n >? 1) eqn:E1.
    { rewrite Z.gtb_ltb in E1. apply Z.ltb_lt in E1. lia. }
    destruct (sshExec _ _ st1) as [[w|e|] st2]; [|reflexivity|reflexivity].
    destruct (negb (JS.number_eqb (exitCode w) (JS.Num 0))); reflexivity.
Qed.

(** C1 at a replacement text with a dollar sign.  The file holds "abc",
    where "b" occurs exactly once, and the edit asks for "b" to become
    "$$".  [String.prototype.replace] reads "$$" as a pattern that stands
    for one "$": the content written back is "a$c", not "a$$c". *)
Theorem remote_edit_dollar_pattern :
  let st := Scripted.start None 0 [Scripted.ok "abc"; Scripted.ok ""] in
  let host := Remote.start None (Posix.write Remote.empty "/f" "abc") in
  JS.find "b" "abc" = Some ("a", "c")
  /\ JS.find "b" "c" = None
  /\ Z.of_nat (List.length (JS.split "abc" "b")) - 1 = 1
  /\ fst (remote_edit "/f" "b" "$$" st) = Ret (ok_response "Successfully edited /f")
  /\ Scripted.log (world (snd (remote_edit "/f" "b" "$$" st)))
     = ["cat '/f'"; heredoc_command "/f" "a$c"]
  /\ heredoc_command "/f" "a$c" <> heredoc_command "/f" "a$$c"
  /\ Remote.files (world (snd (remote_edit "/f" "b" "$$" host))) "/f"
     = Some "a$c
".
Proof.
  repeat split; try reflexivity.
  vm_compute. discriminate.
Qed.

(** On the modelled host: a literal edit of a file that ends with a newline
    replaces the target and, because the here-document ends every line of
    its body with a newline, leaves the file one empty line longer; the
    two refusals leave the file as it was. *)
Example remote_edit_on_host :
  let host c := Remote.start None (Posix.write Remote.empty "/f" c) in
  let file (r : Outcome Response * State Remote.platform) :=
    Remote.files (world (snd r)) "/f" in
  let nl := String Posix.nl "" in
  file (remote_edit "/f" "b" "x" (host ("abc" ++ nl))) = Some ("axc" ++ nl ++ nl)
  /\ remote_edit "/f" "z" "x" (host "abc")
     = (Ret (error_response "Error: old_string not found in file"),
        snd (sshExec "cat '/f'" no_options (host "abc")))
  /\ file (remote_edit "/f" "z" "x" (host "abc")) = Some "abc"
  /\ fst (remote_edit "/f" "b" "x" (host "abab"))
     = Ret (error_response
              "Error: old_string found 2 times. Please provide more context to make it unique.")
  /\ file (remote_edit "/f" "b" "x" (host "abab")) = Some "abab".
Proof. repeat split. Qed.


(** * Further properties of the program *)

(** ** Combinators *)

Section Combinators.

Context {P : Platform}.

Lemma keeps_ret {A} (a : A) : keeps_cwd (ret (P := P) a).
Proof. intros st. reflexivity. Qed.

Lemma keeps_bind {A B} (m : M P A) (k : A -> M P B) :
  keeps_cwd m -> (forall a, keeps_cwd (k a)) -> keeps_cwd (bind m k).
Proof.
  intros Hm Hk st. unfold bind. specialize (Hm st).
  destruct (m st) as [[a|e|] st']; simpl in *; [|assumption|assumption].
  now rewrite Hk.
Qed.

Lemma keeps_try {A} (m : M P A) (h : string -> M P A) :
  keeps_cwd m -> (forall e, keeps_cwd (h e)) -> keeps_cwd (try_catch m h).
Proof.
  intros Hm Hh st. unfold try_catch. specialize (Hm st).
  destruct (m st) as [[a|e|] st']; simpl in *; [assumption| |assumption].
  now rewrite Hh.
Qed.

Lemma keeps_sshExec command options : keeps_cwd (sshExec (P := P) command options).
Proof. intros st. apply sshExec_cwd. Qed.

Lemma keeps_get_cwd : keeps_cwd (get_cwd (P := P)).
Proof. intros st. reflexivity. Qed.

Lemma keeps_now : keeps_cwd (now (P := P)).
Proof. intros st. unfold now. destruct (Date_now (world st)). reflexivity. Qed.

Lemma keeps_sleep ms : keeps_cwd (sleep (P := P) ms).
Proof. intros st. reflexivity. Qed.

Lemma settles_ret {A} (a : A) : settles (ret (P := P) a).
Proof. intros st. discriminate. Qed.

Lemma settles_bind {A B} (m : M P A) (k : A -> M P B) :
  settles m -> (forall a, settles (k a)) -> settles (bind m k).
Proof.
  intros Hm Hk st. unfold bind. specialize (Hm st).
  destruct (m st) as [[a|e|] st']; simpl in *;
    [apply Hk | discriminate | contradiction].
Qed.

Lemma settles_sshExec command options : settles (sshExec (P := P) command options).
Proof. intros st. apply sshExec_not_pending. Qed.

Lemma settles_get_cwd : settles (get_cwd (P := P)).
Proof. intros st. discriminate. Qed.

Lemma settles_set_cwd d : settles (set_cwd (P := P) d).
Proof. intros st. discriminate. Qed.

Lemma settles_now : settles (now (P := P)).
Proof. intros st. unfold now. destruct (Date_now (world st)). discriminate. Qed.

Lemma settles_sleep ms : settles (sleep (P := P) ms).
Proof. intros st. discriminate. Qed.

(** A [try]/[catch] whose handler returns a response turns everything
    that settles into a response. *)
Lemma fulfils_try (m : M P Response) (msg : string -> string) :
  settles m ->
  fulfils (try_catch m (fun error => ret (error_response (msg error)))).
Proof.
  intros Hm st. unfold try_catch. specialize (Hm st).
  destruct (m st) as [[a|e|] st']; simpl in *; eauto. contradiction.
Qed.

End Combinators.

Create HintDb relay.

#[local] Hint Resolve keeps_ret keeps_sshExec keeps_get_cwd keeps_now keeps_sleep
  settles_ret settles_sshExec settles_get_cwd settles_set_cwd settles_now
  settles_sleep : relay.

(** Take a computation apart along its binds, tests and matches. *)
Ltac relay_step :=
  match goal with
  | |- keeps_cwd (bind _ _) => apply keeps_bind; [|intros ?]
  | |- keeps_cwd (try_catch _ _) => apply keeps_try; [|intros ?]
  | |- settles (bind _ _) => apply settles_bind; [|intros ?]
  | |- context [if ?b then _ else _] => destruct b
  | |- context [match ?x with Some _ => _ | None => _ end] => destruct x
  | |- context [match ?x with pair _ _ => _ end] => destruct x
  | |- _ => solve [auto with relay]
  end.

Section Bridge_facts.

Context {P : Platform}.

Lemma keeps_poll fuel startTime timeout outputFile exitCodeFile :
  keeps_cwd (poll (P := P) fuel startTime timeout outputFile exitCodeFile).
Proof.
  induction fuel as [|fuel IH]; [intros st; reflexivity|].
  cbn [poll]. repeat relay_step.
Qed.

Lemma keeps_temp_files : keeps_cwd (temp_files (P := P)).
Proof. unfold temp_files. repeat relay_step. Qed.

Lemma keeps_launch command : keeps_cwd (launch (P := P) command).
Proof.
  unfold launch. pose proof keeps_temp_files. repeat relay_step.
Qed.

Lemma keeps_tmuxExec fuel command options :
  keeps_cwd (tmuxExec (P := P) fuel command options).
Proof.
  unfold tmuxExec, timed_out.
  pose proof (keeps_launch command). pose proof keeps_poll.
  repeat relay_step.
Qed.

End Bridge_facts.

(** ** Who changes the working directory, and who answers *)

(** Only [remote_cd] assigns [currentWorkingDirectory]: the Bridge and
    every other handler leave it as they found it, whatever the transport
    does and however the call ends. *)
Theorem working_directory_is_kept {P : Platform} :
  (forall fuel command options, keeps_cwd (tmuxExec (P := P) fuel command options))
  /\ (forall fuel command timeout, keeps_cwd (remote_bash (P := P) fuel command timeout))
  /\ (forall filePath offset limit, keeps_cwd (remote_read (P := P) filePath offset limit))
  /\ (forall filePath content, keeps_cwd (remote_write (P := P) filePath content))
  /\ (forall filePath old_string new_string,
        keeps_cwd (remote_edit (P := P) filePath old_string new_string))
  /\ (forall pattern searchPath, keeps_cwd (remote_glob (P := P) pattern searchPath))
  /\ (forall pattern searchPath include,
        keeps_cwd (remote_grep (P := P) pattern searchPath include))
  /\ (forall dirPath all long, keeps_cwd (remote_ls (P := P) dirPath all long))
  /\ keeps_cwd (remote_pwd (P := P)).
Proof.
  pose proof (@keeps_tmuxExec P) as Ht.
  repeat split; intros;
    unfold remote_bash, remote_read, remote_write, remote_edit, remote_glob,
           remote_grep, remote_ls, remote_pwd;
    try apply Ht; repeat relay_step.
Qed.


(** ** The wait loop ends *)

Section Liveness.

Context {P : Platform}.

(** A clock that does not run backwards and that a timer moves forward. *)
Variable time : World -> Z.
Hypothesis time_now :
  forall w, time w <= fst (Date_now w) <= time (snd (Date_now w)).
Hypothesis time_spawn :
  forall file args t w, time w <= time (snd (spawn file args t w)).
Hypothesis time_sleep :
  forall ms w, time w + ms <= time (setTimeout ms w).

Lemma time_sshExec command options (st : State P) :
  time (world st) <= time (world (snd (sshExec command options st))).
Proof.
  unfold sshExec, settle.
  pose proof (time_spawn "ssh" (sshArgs command)
                         (JS.or_number (timeout options) 60000) (world st)) as H.
  destruct (spawn _ _ _ _) as [[out err code|e] w]; exact H.
Qed.

Lemma poll_settles startTime timeout outputFile exitCodeFile :
  forall fuel (st : State P),
    (1 <= fuel)%nat ->
    startTime + timeout - time (world st) <= 500 * (Z.of_nat fuel - 1) ->
    fst (poll fuel startTime timeout outputFile exitCodeFile st) <> Pending.
Proof.
  induction fuel as [|fuel IH]; intros st Hf Hb; [lia|].
  cbn [poll]. unfold bind at 1. unfold now at 1.
  pose proof (time_now (world st)) as Hn.
  destruct (Date_now (world st)) as [t w]. cbn [fst snd] in Hn.
  destruct (t - startTime <? timeout) eqn:E; [|discriminate].
  apply Z.ltb_lt in E.
  unfold bind at 1.
  set (s0 := {| currentWorkingDirectory := currentWorkingDirectory st; world := w |}).
  pose proof (time_sshExec ("test -f " ++ exitCodeFile ++ " && cat " ++ exitCodeFile)
                           no_options s0) as Hs.
  destruct (sshExec _ _ s0) as [[check|e|] s1] eqn:Hc; cbn [snd] in Hs.
  - destruct (negb (JS.trim (stdout check) =? "")%string).
    + apply settles_bind; [auto with relay|intros out].
      apply settles_bind; auto with relay.
    + unfold bind, sleep. apply IH.
      * destruct fuel; [|lia]. cbn [world] in *. subst s0. cbn [world] in Hs. lia.
      * cbn [world].
        pose proof (time_sleep 500 (world s1)). subst s0. cbn [world] in Hs. lia.
  - discriminate.
  - exfalso. eapply sshExec_not_pending. now rewrite Hc.
Qed.

Lemma launch_start_time command (st s1 : State P) o e t0 :
  launch command st = (Ret (o, e, t0), s1) -> t0 <= time (world s1).
Proof.
  unfold launch, bind, ret.
  destruct (temp_files st) as [[files| |] sa]; try discriminate.
  destruct (sshExec _ _ sa) as [[r1| |] sb]; try discriminate.
  unfold get_cwd at 1.
  destruct (sshExec _ _ sb) as [[r2| |] sc]; try discriminate.
  unfold now. pose proof (time_now (world sc)) as Hn.
  destruct (Date_now (world sc)) as [t w].
  intros H. injection H as _ _ <- <-. cbn [world fst snd] in *. lia.
Qed.

Lemma settles_launch command : settles (launch (P := P) command).
Proof.
  unfold launch, temp_files. repeat relay_step.
Qed.

(** With a clock that does not run backwards and timers that last as long
    as asked, the wait loop of [tmuxExec] ends: as soon as the fuel covers
    one pass per 500 ms of the timeout and one more, the call settles, and
    [remote_bash] answers with a response. *)
Theorem bridge_settles (fuel : nat) (command : string) (options : Options) :
  (1 <= fuel)%nat ->
  JS.or_number (timeout options) 60000 <= 500 * (Z.of_nat fuel - 1) ->
  settles (tmuxExec fuel command options)
  /\ fulfils (remote_bash fuel command (timeout options)).
Proof.
  intros Hf Hb.
  assert (Ht : settles (tmuxExec fuel command options)).
  { intros st. unfold tmuxExec. unfold bind at 1.
    pose proof (settles_launch command st) as Hl.
    destruct (launch command st) as [[[[o e] t0]|err|] s1] eqn:El;
      [|discriminate|contradiction].
    apply launch_start_time in El.
    unfold bind at 1.
    pose proof (poll_settles t0 (JS.or_number (timeout options) 60000) o e
                             fuel s1 Hf ltac:(lia)) as Hp.
    destruct (poll _ _ _ _ _ s1) as [[[r|]|err|] s2];
      [discriminate| |discriminate|contradiction].
    apply settles_bind; auto with relay. }
  split; [exact Ht|].
  unfold remote_bash. destruct options as [t]. cbn [timeout] in *.
  apply fulfils_try. repeat relay_step.
Qed.

End Liveness.

Lemma bridge_settles_witness :
  let options := {| timeout := Some (JS.Num 1000) |} in
  settles (tmuxExec (P := Scripted.platform) 4 "make" options)
  /\ fulfils (remote_bash (P := Scripted.platform) 4 "make" (timeout options)).
Proof.
  apply (bridge_settles (P := Scripted.platform)
                        (fun t => Scripted.clock_us t / 1000)).
  - intros w. simpl. split; [lia | apply Z.div_le_mono; lia].
  - intros file args t w. simpl. unfold Scripted.run_ssh.
    destruct (Scripted.replies w); simpl; [lia | apply Z.div_le_mono; lia].
  - intros ms w. cbn [setTimeout Scripted.platform Scripted.clock_us].
    rewrite (Z.mul_comm 1000 ms), Z.div_add by lia. lia.
  - lia.
  - simpl. lia.
Defined.

(** ** The exit status travels as text *)

(** What [echo $?] writes for an exit status (its decimal digits and a
    newline) is read back by the Bridge as that status: after [trim] the
    text is not empty, and [parseInt] gives the number. *)
Theorem exit_status_round_trip (n : Z) :
  0 <= n ->
  let written := JS.toString n ++ String Posix.nl "" in
  JS.trim written <> "" /\ JS.parseInt (JS.trim written) = JS.Num n.
Proof. apply exit_status_round_trip_aux. Qed.

Lemma exit_status_round_trip_witness :
  JS.trim "127
" <> "" /\ JS.parseInt (JS.trim "127
") = JS.Num 127.
Proof. apply (exit_status_round_trip 127). lia. Defined.

(** One pass of the wait loop before the deadline.  When the exit-status
    file is still empty or absent, the loop sleeps 500 ms and goes on; when
    it holds the status [n] as [echo $?] wrote it, the loop fetches the
    output file, removes both files and returns the output and [n],
    with an empty [stderr]. *)
Theorem poll_pass {P : Platform} (fuel : nat) (startTime timeout t : Z)
        (outputFile exitCodeFile : string) (st s1 s2 : State P) (check : ExecResult) :
  now st = (Ret t, s1) ->
  t - startTime < timeout ->
  sshExec ("test -f " ++ exitCodeFile ++ " && cat " ++ exitCodeFile) no_options s1
  = (Ret check, s2) ->
  (JS.trim (stdout check) = "" ->
   poll (S fuel) startTime timeout outputFile exitCodeFile st
   = poll fuel startTime timeout outputFile exitCodeFile (snd (sleep 500 s2)))
  /\ (forall n out r s3 s4,
        0 <= n ->
        stdout check = JS.toString n ++ String Posix.nl "" ->
        sshExec ("cat " ++ outputFile ++ " 2>/dev/null") no_options s2 = (Ret out, s3) ->
        sshExec ("rm -f " ++ outputFile ++ " " ++ exitCodeFile) no_options s3
        = (Ret r, s4) ->
        poll (S fuel) startTime timeout outputFile exitCodeFile st
        = (Ret (Some {| stdout := stdout out; stderr := ""; exitCode := JS.Num n |}),
           s4)).
Proof.
  intros Hnow Ht Hcheck.
  apply Z.ltb_lt in Ht.
  split.
  - intros He. cbn [poll]. unfold bind. rewrite Hnow, Ht, Hcheck, He. reflexivity.
  - intros n out r s3 s4 Hn Hs Hcat Hrm.
    destruct (exit_status_round_trip_aux n Hn) as [Hne Hp].
    cbn [poll]. unfold bind. rewrite Hnow, Ht, Hcheck, Hs.
    apply String.eqb_neq in Hne. rewrite Hne. cbn [negb].
    rewrite Hcat, Hrm, Hp. reflexivity.
Qed.

Lemma poll_pass_witness :
  fst (poll (P := Scripted.platform) 1 0 60000 "/tmp/o" "/tmp/e"
            (Scripted.start None 0
                            [Scripted.ok "3
"; Scripted.ok "done"; Scripted.ok ""]))
  = Ret (Some {| stdout := "done"; stderr := ""; exitCode := JS.Num 3 |}).
Proof.
  set (st := Scripted.start None 0
                            [Scripted.ok "3
"; Scripted.ok "done"; Scripted.ok ""]).
  pose proof (poll_pass (P := Scripted.platform) 0 0 60000 0 "/tmp/o" "/tmp/e"
                        st (snd (now st))
                        (snd (sshExec "test -f /tmp/e && cat /tmp/e" no_options
                                      (snd (now st))))
                        {| stdout := "3
"; stderr := ""; exitCode := JS.Num 0 |}
                        eq_refl ltac:(lia) eq_refl) as [_ H].
  rewrite (H 3 {| stdout := "done"; stderr := ""; exitCode := JS.Num 0 |}
             {| stdout := ""; stderr := ""; exitCode := JS.Num 0 |}
             _ _ ltac:(lia) eq_refl eq_refl eq_refl).
  reflexivity.
Defined.

(** ** What [remote_bash] reports *)

(** [remote_bash] flags a response as an error only when the Bridge call is
    rejected.  A command that ran, whatever its exit code, and a command
    that timed out are reported without the flag; for a timeout the report
    says "failed (exit code: 124)" and "(no output)", and the message
    "Command timed out" that [tmuxExec] put in [stderr] is not part of it. *)
Theorem remote_bash_report
        {P : Platform} (fuel : nat) (command : string) (timeout : option JS.number)
        (st s1 : State P) :
  (forall result,
      tmuxExec fuel command {| timeout := timeout |} st = (Ret result, s1) ->
      exists t, remote_bash fuel command timeout st
                = (Ret {| text := t; isError := false |}, s1))
  /\ (tmuxExec fuel command {| timeout := timeout |} st = (Ret timed_out, s1) ->
      remote_bash fuel command timeout st
      = (Ret {| text := "Command: " ++ command ++ "
Status: failed (exit code: 124)
Working directory: " ++ JS.or_string (currentWorkingDirectory s1) "(not set)" ++ "

Output:
(no output)"; isError := false |}, s1))
  /\ (forall e,
        tmuxExec fuel command {| timeout := timeout |} st = (Throw e, s1) ->
        remote_bash fuel command timeout st
        = (Ret {| text := "Error executing command: " ++ e; isError := true |}, s1)).
Proof.
  unfold remote_bash, try_catch, bind, get_cwd, ret, ok_response, error_response.
  split; [|split].
  - intros result ->. eexists. reflexivity.
  - intros ->. reflexivity.
  - intros e ->. reflexivity.
Qed.

Lemma remote_bash_report_witness :
  fst (remote_bash (P := Scripted.platform) 10 "sleep 100" (Some (JS.Num 1))
                   (Scripted.start (Some "/srv") 5000000
                      [Scripted.ok ""; Scripted.ok ""; Scripted.ok ""; Scripted.ok ""]))
  = Ret {| text := "Command: sleep 100
Status: failed (exit code: 124)
Working directory: /srv

Output:
(no output)"; isError := false |}.
Proof.
  set (st := Scripted.start (Some "/srv") 5000000
               [Scripted.ok ""; Scripted.ok ""; Scripted.ok ""; Scripted.ok ""]).
  pose proof (remote_bash_report (P := Scripted.platform) 10 "sleep 100"
                (Some (JS.Num 1)) st
                (snd (tmuxExec 10 "sleep 100" {| timeout := Some (JS.Num 1) |} st)))
    as [_ [H _]].
  rewrite (H eq_refl). reflexivity.
Defined.

(** ** The commands, as the remote shell reads them *)

Module CommandFacts.

Import Posix.

(** The probe of [remote_cd]: the target is one literal word between [cd]
    and [&& pwd], whatever characters it holds. *)
Theorem cd_probe_tokens (targetPath : string) :
  tokens ("cd " ++ escapeShell targetPath ++ " && pwd")
  = Some ([Word false "cd"; Word true targetPath; Op "&&"; Word false "pwd"], "").
Proof.
  unfold tokens.
  assert (H1 : forall x, lex Plain NoTok [] ("cd " ++ x)
                         = lex Plain NoTok [Word false "cd"] x) by reflexivity.
  assert (H2 : forall w acc,
             lex Plain (InWord true w) acc " && pwd"
             = Some (rev (Word false "pwd" :: Op "&&" :: Word true w :: acc), ""))
    by reflexivity.
  now rewrite H1, lex_escapeShell, H2.
Qed.

(** The command of [remote_glob]: the directory and the pattern are one
    literal word each; the pattern reaches [find] unexpanded. *)
Theorem glob_command_tokens (dir pattern : string) :
  tokens (glob_command dir pattern)
  = Some ([Word false "cd"; Word true dir; Op "&&";
           Word false "find"; Word false "."; Word false "-type"; Word false "f";
           Word false "-name"; Word true pattern;
           Word false "2"; Op ">"; Word false "/dev/null";
           Op "|"; Word false "head"; Word false "-100";
           Op "|"; Word false "sort"], "").
Proof.
  unfold tokens, glob_command.
  assert (H1 : forall x, lex Plain NoTok [] ("cd " ++ x)
                         = lex Plain NoTok [Word false "cd"] x) by reflexivity.
  assert (H2 : forall w acc x,
             lex Plain (InWord true w) acc (" && find . -type f -name " ++ x)
             = lex Plain NoTok
                   (Word false "-name" :: Word false "f" :: Word false "-type"
                    :: Word false "." :: Word false "find" :: Op "&&"
                    :: Word true w :: acc) x) by reflexivity.
  assert (H3 : forall w acc,
             lex Plain (InWord true w) acc " 2>/dev/null | head -100 | sort"
             = Some (rev (Word false "sort" :: Op "|" :: Word false "-100"
                          :: Word false "head" :: Op "|" :: Word false "/dev/null"
                          :: Op ">" :: Word false "2" :: Word true w :: acc), ""))
    by reflexivity.
  now rewrite H1, lex_escapeShell, H2, lex_escapeShell, H3.
Qed.

(** The command of [remote_grep] without an [include] filter: the pattern
    and the directory are one literal word each. *)
Theorem grep_command_tokens (pattern dir : string) (include : option string) :
  JS.or_string include "" = "" ->
  tokens (grep_command pattern dir include)
  = Some ([Word false "grep"; Word false "-rn"; Word true pattern; Word true dir;
           Word false "2"; Op ">"; Word false "/dev/null";
           Op "|"; Word false "head"; Word false "-50"], "").
Proof.
  intros Hi.
  assert (E : grep_command pattern dir include
              = "grep -rn " ++ escapeShell pattern ++ " " ++ escapeShell dir
                ++ " 2>/dev/null | head -50").
  { unfold grep_command. cbv zeta.
    destruct include as [i|]; [|now rewrite !append_assoc].
    unfold JS.or_string in Hi.
    destruct (JS.truthy i) eqn:Et; [|now rewrite !append_assoc].
    subst i. discriminate. }
  rewrite E. unfold tokens.
  assert (H1 : forall x, lex Plain NoTok [] ("grep -rn " ++ x)
                         = lex Plain NoTok [Word false "-rn"; Word false "grep"] x)
    by reflexivity.
  assert (H2 : forall w acc x,
             lex Plain (InWord true w) acc (" " ++ x)
             = lex Plain NoTok (Word true w :: acc) x) by reflexivity.
  assert (H3 : forall w acc,
             lex Plain (InWord true w) acc " 2>/dev/null | head -50"
             = Some (rev (Word false "-50" :: Word false "head" :: Op "|"
                          :: Word false "/dev/null" :: Op ">" :: Word false "2"
                          :: Word true w :: acc), ""))
    by reflexivity.
  now rewrite H1, lex_escapeShell, H2, lex_escapeShell, H3.
Qed.

(** The command of [remote_ls]: [ls], then one option word when a flag is
    asked for ([-a], [-l] or [-al]) and none otherwise, then the directory
    as one literal word. *)
Theorem ls_command_tokens (dir : string) (all long : option bool) :
  tokens (ls_command dir all long)
  = Some ([Word false "ls"]
          ++ (if JS.truthy_bool all || JS.truthy_bool long
              then [Word false ("-" ++ (if JS.truthy_bool all then "a" else "")
                                    ++ (if JS.truthy_bool long then "l" else ""))]
              else [])
          ++ [Word true dir], "")%list.
Proof.
  unfold tokens, ls_command, ls_flags.
  rewrite <- (append_nil_r (escapeShell dir)).
  destruct (JS.truthy_bool all), (JS.truthy_bool long); cbn [orb JS.truthy].
  - assert (H1 : forall x, lex Plain NoTok [] ("ls " ++ ("-" ++ ("" ++ "a") ++ "l")
                                               ++ " " ++ x)
                           = lex Plain NoTok [Word false "-al"; Word false "ls"] x)
      by reflexivity.
    now rewrite H1, lex_escapeShell.
  - assert (H1 : forall x, lex Plain NoTok [] ("ls " ++ ("-" ++ "" ++ "a") ++ " " ++ x)
                           = lex Plain NoTok [Word false "-a"; Word false "ls"] x)
      by reflexivity.
    now rewrite H1, lex_escapeShell.
  - assert (H1 : forall x, lex Plain NoTok [] ("ls " ++ ("-" ++ "" ++ "l") ++ " " ++ x)
                           = lex Plain NoTok [Word false "-l"; Word false "ls"] x)
      by reflexivity.
    now rewrite H1, lex_escapeShell.
  - assert (H1 : forall x, lex Plain NoTok [] ("ls " ++ "" ++ " " ++ x)
                           = lex Plain NoTok [Word false "ls"] x)
      by reflexivity.
    now rewrite H1, lex_escapeShell.
Qed.

End CommandFacts.

(** ** The command of [remote_read] *)

Module ReadFacts.

Import Posix.

Lemma lex_ordinary (s : string) :
  forall q w acc rest,
    all_ordinary s = true ->
    lex Plain (InWord q w) acc (s ++ rest) = lex Plain (InWord q (w ++ s)) acc rest.
Proof.
  induction s as [|a s IH]; intros q w acc rest H.
  - simpl. now rewrite append_nil_r.
  - cbn [all_ordinary] in H. apply andb_prop in H as [Ha Hs].
    unfold ordinary in Ha. apply negb_true_iff in Ha.
    repeat (apply orb_false_elim in Ha as [Ha ?]).
    cbn [append lex].
    repeat match goal with H : _ = false |- _ => rewrite H; clear H end.
    cbn [push]. rewrite orb_false_r, IH by assumption.
    now rewrite snoc_append.
Qed.

Lemma all_ordinary_app (a b : string) :
  all_ordinary (a ++ b) = all_ordinary a && all_ordinary b.
Proof.
  induction a as [|x a IH]; simpl; [reflexivity|].
  now rewrite IH, andb_assoc.
Qed.

Lemma all_ordinary_uint (d : Decimal.uint) :
  all_ordinary (NilEmpty.string_of_uint d) = true.
Proof. induction d; simpl; auto. Qed.

Lemma all_ordinary_toString (z : Z) : all_ordinary (JS.toString z) = true.
Proof.
  unfold JS.toString. destruct (Z.to_int z) as [d|d]; simpl;
    apply all_ordinary_uint.
Qed.

Lemma replace_quotes_ordinary (s r : string) :
  all_ordinary s = true -> JS.replace_quotes s r = s.
Proof.
  induction s as [|a s IH]; [reflexivity|].
  cbn [all_ordinary JS.replace_quotes]. intros H.
  apply andb_prop in H as [Ha Hs]. rewrite IH by assumption.
  destruct (a =? "'")%char eqn:E; [|reflexivity].
  apply Ascii.eqb_eq in E. subst a. discriminate.
Qed.

(** How the shell reads the three forms of the command of [remote_read],
    for an offset and a limit that are safe integers, with a safe sum.
    Without offset and limit (0 counts as none): [cat -n] of the path.
    With a limit: [sed -n] with the range [start,start+limit-1p] as one
    quoted word, where [start] is the offset, or 1 without one.  With an
    offset only: [tail -n +offset].  In each form the path is one literal
    word, and the output goes through [cat -n]. *)
Theorem read_command_tokens (fullPath : string) (offset limit : option JS.number) :
  let start := JS.or_number offset 1 in
  (forall z, offset = Some (JS.Num z) -> JS.safe_integer z) ->
  (JS.truthy_num offset = false -> JS.truthy_num limit = false ->
   tokens (read_command fullPath offset limit)
   = Some ([Word false "cat"; Word false "-n"; Word true fullPath], ""))
  /\ (forall l, limit = Some (JS.Num l) -> l <> 0 ->
      JS.safe_integer l -> JS.safe_integer (start + l) ->
      tokens (read_command fullPath offset limit)
      = Some ([Word false "sed"; Word false "-n";
               Word true (JS.toString start ++ "," ++ JS.toString (start + l - 1) ++ "p");
               Word true fullPath; Op "|"; Word false "cat"; Word false "-n"], ""))
  /\ (JS.truthy_num offset = true -> JS.truthy_num limit = false ->
      tokens (read_command fullPath offset limit)
      = Some ([Word false "tail"; Word false "-n";
               Word false ("+" ++ JS.toString start);
               Word true fullPath; Op "|"; Word false "cat"; Word false "-n"], "")).
Proof.
  intros start Hsafe.
  assert (Hend : forall w acc,
             lex Plain (InWord true w) acc " | cat -n"
             = Some (rev (Word false "-n" :: Word false "cat" :: Op "|"
                          :: Word true w :: acc), "")) by reflexivity.
  assert (Hsp : forall w acc x,
             lex Plain (InWord true w) acc (" " ++ x)
             = lex Plain NoTok (Word true w :: acc) x) by reflexivity.
  split; [|split].
  - intros Ho Hl. unfold read_command. rewrite Ho, Hl. apply ShFacts.tokens_cat_n.
  - intros l -> Hl _ _. unfold read_command. fold start.
    assert (Ht : JS.truthy_num offset || JS.truthy_num (Some (JS.Num l)) = true).
    { simpl. apply Z.eqb_neq in Hl. rewrite Hl. apply orb_true_r. }
    rewrite Ht. apply Z.eqb_neq in Hl. rewrite Hl.
    set (range := JS.toString start ++ "," ++ JS.toString (start + l - 1) ++ "p").
    assert (Hr : all_ordinary range = true).
    { unfold range. rewrite !all_ordinary_app, !all_ordinary_toString. reflexivity. }
    assert (E : "sed -n '" ++ JS.toString start ++ "," ++ JS.toString (start + l - 1)
                ++ "p' " ++ escapeShell fullPath ++ " | cat -n"
                = "sed -n " ++ escapeShell range ++ " " ++ escapeShell fullPath
                  ++ " | cat -n").
    { assert (Eq : escapeShell range = "'" ++ range ++ "'").
      { unfold escapeShell. now rewrite replace_quotes_ordinary. }
      rewrite Eq. unfold range.
      repeat first [rewrite append_assoc | progress cbn [append]]. reflexivity. }
    rewrite E. unfold tokens.
    assert (H1 : forall x, lex Plain NoTok [] ("sed -n " ++ x)
                           = lex Plain NoTok [Word false "-n"; Word false "sed"] x)
      by reflexivity.
    now rewrite H1, lex_escapeShell, Hsp, lex_escapeShell, Hend.
  - intros Ho Hl. unfold read_command. fold start. rewrite Ho. cbn [orb].
    assert (E : match limit with
                | Some (JS.Num l) =>
                    if l =? 0
                    then "tail -n +" ++ JS.toString start ++ " "
                         ++ escapeShell fullPath ++ " | cat -n"
                    else "sed -n '" ++ JS.toString start ++ ","
                         ++ JS.toString (start + l - 1) ++ "p' "
                         ++ escapeShell fullPath ++ " | cat -n"
                | _ => "tail -n +" ++ JS.toString start ++ " "
                       ++ escapeShell fullPath ++ " | cat -n"
                end
                = "tail -n +" ++ JS.toString start ++ " "
                  ++ escapeShell fullPath ++ " | cat -n").
    { destruct limit as [[l|]|]; try reflexivity.
      simpl in Hl. apply negb_false_iff in Hl. now rewrite Hl. }
    rewrite E. unfold tokens.
    assert (H1 : forall x, lex Plain NoTok [] ("tail -n +" ++ x)
                           = lex Plain (InWord false "+")
                                 [Word false "-n"; Word false "tail"] x)
      by reflexivity.
    assert (H2 : forall w acc x,
               lex Plain (InWord false w) acc (" " ++ x)
               = lex Plain NoTok (Word false w :: acc) x) by reflexivity.
    rewrite H1, lex_ordinary by apply all_ordinary_toString.
    now rewrite H2, lex_escapeShell, Hend.
Qed.

End ReadFacts.

Lemma grep_command_tokens_witness :
  Posix.tokens (grep_command "a b; rm -rf $HOME" "/srv/it's" None)
  = Some ([Posix.Word false "grep"; Posix.Word false "-rn";
           Posix.Word true "a b; rm -rf $HOME"; Posix.Word true "/srv/it's";
           Posix.Word false "2"; Posix.Op ">"; Posix.Word false "/dev/null";
           Posix.Op "|"; Posix.Word false "head"; Posix.Word false "-50"], "").
Proof.
  apply (CommandFacts.grep_command_tokens "a b; rm -rf $HOME" "/srv/it's" None).
  reflexivity.
Defined.

Lemma read_command_tokens_witness :
  Posix.tokens (read_command "/var/log/syslog" (Some (JS.Num 10)) (Some (JS.Num 5)))
  = Some ([Posix.Word false "sed"; Posix.Word false "-n"; Posix.Word true "10,14p";
           Posix.Word true "/var/log/syslog"; Posix.Op "|";
           Posix.Word false "cat"; Posix.Word false "-n"], "")
  /\ Posix.tokens (read_command "f" (Some (JS.Num 0)) None)
     = Some ([Posix.Word false "cat"; Posix.Word false "-n"; Posix.Word true "f"], "")
  /\ Posix.tokens (read_command "f" (Some (JS.Num 3)) (Some (JS.Num 0)))
     = Some ([Posix.Word false "tail"; Posix.Word false "-n"; Posix.Word false "+3";
              Posix.Word true "f"; Posix.Op "|";
              Posix.Word false "cat"; Posix.Word false "-n"], "").
Proof.
  split; [|split].
  - refine (proj1 (proj2 (ReadFacts.read_command_tokens
                            "/var/log/syslog" (Some (JS.Num 10)) (Some (JS.Num 5)) _))
                  5 eq_refl _ _ _).
    + intros z H. injection H as <-. unfold JS.safe_integer. lia.
    + discriminate.
    + unfold JS.safe_integer. lia.
    + unfold JS.safe_integer. simpl. lia.
  - apply (proj1 (ReadFacts.read_command_tokens "f" (Some (JS.Num 0)) None
                    ltac:(intros z H; injection H as <-; unfold JS.safe_integer; lia)));
      reflexivity.
  - apply (proj2 (proj2 (ReadFacts.read_command_tokens
                           "f" (Some (JS.Num 3)) (Some (JS.Num 0))
                           ltac:(intros z H; injection H as <-;
                                 unfold JS.safe_integer; lia))));
      reflexivity.
Defined.

(** ** Resolved paths and temporary files *)

(** Under an absolute working directory every resolved path is absolute,
    and resolving it again changes nothing. *)
Theorem resolvePath_absolute (D P : string) :
  JS.startsWith D "/" = true ->
  JS.startsWith (resolvePath (Some D) P) "/" = true
  /\ resolvePath (Some D) (resolvePath (Some D) P) = resolvePath (Some D) P.
Proof.
  intros HD.
  assert (Hjoin : JS.startsWith (D ++ "/" ++ P) "/" = true).
  { destruct D as [|a D]; [discriminate|].
    unfold JS.startsWith in *. cbn [append String.prefix] in *.
    destruct (ascii_dec "/" a); [|discriminate].
    now destruct (D ++ String "/" P). }
  assert (Hfix : forall Q, JS.startsWith Q "/" = true -> resolvePath (Some D) Q = Q).
  { intros Q HQ. unfold resolvePath. now rewrite HQ. }
  assert (HR : JS.startsWith (resolvePath (Some D) P) "/" = true).
  { unfold resolvePath.
    destruct (negb (JS.startsWith P "/") && JS.truthy D) eqn:E; [exact Hjoin|].
    destruct (JS.startsWith P "/"); [reflexivity|].
    destruct D; discriminate. }
  split; [exact HR | now apply Hfix].
Qed.

Lemma resolvePath_absolute_witness :
  JS.startsWith (resolvePath (Some "/srv/app") "src/index.ts") "/" = true
  /\ resolvePath (Some "/srv/app") (resolvePath (Some "/srv/app") "src/index.ts")
     = resolvePath (Some "/srv/app") "src/index.ts".
Proof. apply (resolvePath_absolute "/srv/app" "src/index.ts"). reflexivity. Defined.

(** The two temporary files of one call never have the same name. *)
Theorem temp_files_differ {P : Platform} (st st' : State P) (o e : string) :
  temp_files st = (Ret (o, e), st') -> o <> e.
Proof.
  rewrite temp_files_eq. intros H. injection H as <- <- _.
  cbn [append]. intros E. discriminate E.
Qed.

Lemma temp_files_differ_witness :
  "/tmp/claude-relay-output-5000" <> "/tmp/claude-relay-exit-5000".
Proof.
  apply (temp_files_differ (P := Scripted.platform)
                           (Scripted.start None 5000000 []) _ _ _ eq_refl).
Defined.

(** ** When the edit goes ahead *)

(** For a non-empty target, the count that [remote_edit] computes is 1
    exactly when the target occurs in the content and does not occur again
    in the text after its first occurrence. *)
Theorem occurrences_one_iff (content old_string : string) :
  old_string <> "" ->
  Z.of_nat (List.length (JS.split content old_string)) - 1 = 1
  <-> exists before after,
        JS.find old_string content = Some (before, after)
        /\ JS.find old_string after = None.
Proof.
  intros Hn. unfold JS.split.
  assert (Hb : (old_string =? "")%string = false) by now apply String.eqb_neq.
  rewrite Hb.
  assert (Hempty : JS.find old_string "" = None).
  { simpl. destruct old_string; [contradiction | reflexivity]. }
  destruct (JS.find old_string content) as [[b a]|] eqn:E.
  - pose proof (find_shrinks _ _ _ _ Hn E) as Hlen.
    destruct (String.length content) as [|k] eqn:Ek; [lia|].
    cbn [JS.split_from]. rewrite E.
    rewrite (split_from_fuel old_string Hn k (S (String.length a)) a) by lia.
    cbn [JS.split_from].
    destruct (JS.find old_string a) as [[b' a']|] eqn:E'.
    + split.
      * intros H. exfalso.
        pose proof (split_from_nonempty (String.length a) old_string a').
        cbn [List.length] in H. lia.
      * intros [b0 [a0 [H0 H1]]]. injection H0 as <- <-. congruence.
    + split; [|reflexivity]. intros _. exists b, a. now split.
  - split.
    + intros H. exfalso.
      destruct (String.length content); cbn [JS.split_from] in H;
        [|rewrite E in H]; cbn [List.length] in H; lia.
    + intros [b [a [H _]]]. discriminate.
Qed.

Lemma occurrences_one_iff_witness :
  Z.of_nat (List.length (JS.split "port: 3000" "3000")) - 1 = 1.
Proof.
  apply (occurrences_one_iff "port: 3000" "3000"); [discriminate|].
  exists "port: ", "". split; reflexivity.
Defined.

Lemma occurrences_zero_iff_witness :
  Z.of_nat (List.length (JS.split "port: 3000" "8080")) - 1 = 0.
Proof.
  apply (occurrences_zero_iff "port: 3000" "8080"); [discriminate | reflexivity].
Defined.

Lemma replace_plain_witness :
  "port: 3000;" = "port: " ++ "3000" ++ ";"
  /\ JS.replace "port: 3000;" "3000" "8080" = "port: " ++ "8080" ++ ";".
Proof.
  apply (replace_plain "port: 3000;" "3000" "8080" "port: " ";"); reflexivity.
Defined.

Lemma remote_edit_cases_witness :
  remote_edit (P := Scripted.platform) "f" "x" "y"
              (Scripted.start None 0 [Scripted.ok "abc"; Scripted.ok ""])
  = (Ret (error_response "Error: old_string not found in file"),
     snd (sshExec (P := Scripted.platform) "cat 'f'" no_options
                  (Scripted.start None 0 [Scripted.ok "abc"; Scripted.ok ""]))).
Proof.
  refine (proj1 (remote_edit_cases (P := Scripted.platform) "f" "x" "y"
                   (Scripted.start None 0 [Scripted.ok "abc"; Scripted.ok ""])
                   _ {| stdout := "abc"; stderr := ""; exitCode := JS.Num 0 |}
                   eq_refl eq_refl) eq_refl).
Defined.

(** ** Writing and editing on the modelled host *)

Module HostFacts.

Import Posix.

Lemma tokens_cat (fullPath : string) :
  tokens ("cat " ++ escapeShell fullPath)
  = Some ([Word false "cat"; Word true fullPath], "").
Proof.
  unfold tokens.
  assert (H1 : forall x, lex Plain NoTok [] ("cat " ++ x)
                         = lex Plain NoTok [Word false "cat"] x) by reflexivity.
  rewrite H1, <- (append_nil_r (escapeShell fullPath)), lex_escapeShell.
  reflexivity.
Qed.

Lemma sh_cat (k : nodes) (fs : store) (fullPath file : string) :
  file_operand fullPath = true ->
  k fullPath = Regular ->
  fs fullPath = Some file ->
  sh k fs ("cat " ++ escapeShell fullPath)
  = Some (Exit {| r_out := file; r_err := ""; r_status := 0; r_fs := fs |}).
Proof.
  intros Hp Hk Hf.
  eapply ShFacts.sh_single;
    [ discriminate | apply tokens_cat | discriminate | ].
  cbn [exec]. simpl. unfold cat. rewrite Hp, Hk, Hf.
  repeat match goal with
         | |- context [match ?x with _ => _ end] => destruct x
         end; reflexivity.
Qed.

(** On the modelled host, under the conditions of the round trip (a resolved
    path without U+0000 that [cat] takes as a file name and that is a
    regular file, an ASCII content without U+0000 and without a delimiter
    line, a command under the argument limit), [remote_write] leaves the file
    holding the content followed by a newline, and the working directory as
    it was. *)
Theorem remote_write_on_host
        (cwd : option string) (h : Remote.host) (path content : string) :
  let fullPath := resolvePath cwd path in
  let st' := snd (remote_write path content (@mkState Remote.platform cwd h)) in
  file_operand fullPath = true ->
  Remote.has_nul fullPath = false ->
  Remote.nodes h fullPath = Regular ->
  Remote.ascii_text content = true ->
  ~ In "REMOTERELAY_EOF" (lines content) ->
  Remote.utf8_length (heredoc_command fullPath content) < Remote.arg_max h ->
  Remote.files (world st') fullPath = Some (content ++ String nl "")
  /\ currentWorkingDirectory st' = cwd.
Proof.
  intros fullPath st' Hp Hn Hk Ha Hc Hl.
  destruct h as [fs t k m]. cbn [Remote.nodes Remote.arg_max] in *.
  pose proof (ArgFacts.utf8_length_heredoc_command fullPath content) as Hlen.
  pose proof (ArgFacts.utf8_length_nonneg (escapeShell fullPath)) as He.
  pose proof (ArgFacts.utf8_length_nonneg content) as Hcn.
  assert (Hnc : Remote.has_nul (heredoc_command fullPath content) = false).
  { rewrite ArgFacts.has_nul_heredoc_command, Hn.
    now rewrite ArgFacts.ascii_text_no_nul. }
  unfold st'. open_handler.
  cbn [currentWorkingDirectory]. fold fullPath.
  rewrite (remote_sshExec (heredoc_command fullPath content) no_options
             (@mkState Remote.platform cwd (Remote.mkHost fs t k m)) _
             Hnc ltac:(cbn; lia) Hl
             (ShFacts.sh_heredoc_command k fs fullPath content Hp Hk Hc)).
  cbn [exitCode JS.number_eqb r_status Z.eqb negb snd world Remote.files
       currentWorkingDirectory r_fs].
  unfold write. split; [now rewrite String.eqb_refl | reflexivity].
Qed.

(** On the modelled host, an edit that goes ahead.  Conditions: the resolved
    path has no U+0000, is a file name for [cat] and a regular file holding
    an ASCII text; the count is 1; [new_string] is ASCII, without U+0000 and
    without [$]; the new content has no line equal to [REMOTERELAY_EOF]
    and its here-document command stays under the argument limit.  Then
    the file read is [before ++ old_string ++ after], the handler reports
    success, and the file holds [before ++ new_string ++ after] followed
    by a newline. *)
Theorem remote_edit_on_host_plain
        (cwd : option string) (h : Remote.host)
        (path old_string new_string file before after : string) :
  let fullPath := resolvePath cwd path in
  let result := remote_edit path old_string new_string
                            (@mkState Remote.platform cwd h) in
  file_operand fullPath = true ->
  Remote.has_nul fullPath = false ->
  Remote.nodes h fullPath = Regular ->
  Remote.files h fullPath = Some file ->
  Remote.ascii_text file = true ->
  Z.of_nat (List.length (JS.split file old_string)) - 1 = 1 ->
  JS.find old_string file = Some (before, after) ->
  Remote.ascii_text new_string = true ->
  JS.no_dollar new_string = true ->
  ~ In "REMOTERELAY_EOF" (lines (before ++ new_string ++ after)) ->
  Remote.utf8_length (heredoc_command fullPath (before ++ new_string ++ after))
  < Remote.arg_max h ->
  file = before ++ old_string ++ after
  /\ fst result = Ret (ok_response ("Successfully edited " ++ fullPath))
  /\ Remote.files (world (snd result)) fullPath
     = Some (before ++ new_string ++ after ++ String nl "").
Proof.
  intros fullPath result Hp Hnp Hk Hf Ha Hn Hfind Han Hd Hc Hl.
  destruct h as [fs t k m]. cbn [Remote.nodes Remote.arg_max Remote.files] in *.
  pose proof (find_sound _ _ _ _ Hfind) as Hfile.
  split; [exact Hfile|].
  assert (Hnew : JS.replace file old_string new_string = before ++ new_string ++ after).
  { unfold JS.replace. rewrite Hfind. now rewrite GetSubstitution_plain. }
  assert (Hascii : Remote.ascii_text (before ++ new_string ++ after) = true).
  { rewrite Hfile, !ArgFacts.ascii_text_app in Ha.
    apply andb_prop in Ha as [Hb Ha]. apply andb_prop in Ha as [_ Haf].
    now rewrite !ArgFacts.ascii_text_app, Hb, Han, Haf. }
  pose proof (ArgFacts.utf8_length_heredoc_command
                fullPath (before ++ new_string ++ after)) as Hlen.
  pose proof (ArgFacts.utf8_length_nonneg (escapeShell fullPath)) as He.
  pose proof (ArgFacts.utf8_length_nonneg (before ++ new_string ++ after)) as Hcn.
  assert (Hnc : Remote.has_nul (heredoc_command fullPath
                                  (before ++ new_string ++ after)) = false).
  { rewrite ArgFacts.has_nul_heredoc_command, Hnp.
    now rewrite ArgFacts.ascii_text_no_nul. }
  assert (Hnr : Remote.has_nul ("cat " ++ escapeShell fullPath) = false).
  { now rewrite ArgFacts.has_nul_app, ArgFacts.has_nul_escapeShell, Hnp. }
  assert (Hlr : Remote.utf8_length ("cat " ++ escapeShell fullPath) < m).
  { rewrite ArgFacts.utf8_length_app.
    change (Remote.utf8_length "cat ") with 4. lia. }
  unfold result. open_handler. cbn [currentWorkingDirectory]. fold fullPath.
  rewrite (remote_sshExec ("cat " ++ escapeShell fullPath) no_options
             (@mkState Remote.platform cwd (Remote.mkHost fs t k m)) _
             Hnr ltac:(cbn; lia) Hlr
             (sh_cat k fs fullPath file Hp Hk Hf)).
  cbn [exitCode JS.number_eqb r_status Z.eqb negb stdout r_out
       currentWorkingDirectory world Remote.files Remote.clock r_fs
       Remote.nodes Remote.arg_max].
  rewrite Hn, Hnew. cbn [Z.eqb Z.gtb Z.compare Pos.compare Pos.compare_cont].
  rewrite (remote_sshExec (heredoc_command fullPath (before ++ new_string ++ after))
             no_options
             (@mkState Remote.platform cwd (Remote.mkHost fs (t + 20) k m)) _
             Hnc ltac:(cbn; lia) Hl
             (ShFacts.sh_heredoc_command k fs fullPath _ Hp Hk Hc)).
  cbn [exitCode JS.number_eqb r_status Z.eqb negb fst snd world Remote.files r_fs].
  unfold write. split; [reflexivity|].
  rewrite String.eqb_refl. now rewrite !append_assoc.
Qed.

End HostFacts.

Lemma remote_write_on_host_witness :
  Remote.files
    (world (snd (remote_write "notes.txt" "hello"
                              (Remote.start (Some "/home/u") Remote.empty))))
    "/home/u/notes.txt"
  = Some "hello
".
Proof.
  apply (HostFacts.remote_write_on_host
           (Some "/home/u")
           (Remote.mkHost Remote.empty 0 (fun _ => Posix.Regular) 131072)
           "notes.txt" "hello").
  - reflexivity.
  - reflexivity.
  - reflexivity.
  - reflexivity.
  - vm_compute. intros [H|[]]; discriminate.
  - vm_compute. reflexivity.
Defined.

Lemma remote_edit_on_host_plain_witness :
  Remote.files
    (world (snd (remote_edit "/etc/app.conf" "3000" "8080"
                   (Remote.start None
                      (Posix.write Remote.empty "/etc/app.conf" "port: 3000;")))))
    "/etc/app.conf"
  = Some "port: 8080;
".
Proof.
  refine (proj2 (proj2
           (HostFacts.remote_edit_on_host_plain
              None
              (Remote.mkHost (Posix.write Remote.empty "/etc/app.conf" "port: 3000;")
                             0 (fun _ => Posix.Regular) 131072)
              "/etc/app.conf" "3000" "8080" "port: 3000;" "port: " ";"
              eq_refl eq_refl eq_refl eq_refl eq_refl eq_refl eq_refl eq_refl
              eq_refl _ _))).
  - vm_compute. intros [H|[]]; discriminate.
  - vm_compute. reflexivity.
Defined.

(** ** What a non-zero exit code becomes *)

(** The handlers do not treat a failed remote command alike.  With a
    non-zero exit code, [remote_read], [remote_write] and [remote_ls]
    always answer with an error ([remote_read] and [remote_ls] show the
    standard output when the standard error is empty, [remote_write] shows
    the standard error only); [remote_glob] answers with an error only
    when the standard error is not empty, and otherwise lists the output
    as if the search had succeeded. *)
Theorem nonzero_exit_policies {P : Platform} (st s1 : State P) (r : ExecResult) :
  exitCode r <> JS.Num 0 ->
  let cwd := currentWorkingDirectory st in
  (forall filePath offset limit,
      sshExec (read_command (resolvePath cwd filePath) offset limit) no_options st
      = (Ret r, s1) ->
      remote_read filePath offset limit st
      = (Ret (error_response
                ("Error reading file: " ++ JS.or_str (stderr r) (stdout r))), s1))
  /\ (forall filePath content,
        sshExec (heredoc_command (resolvePath cwd filePath) content) no_options st
        = (Ret r, s1) ->
        remote_write filePath content st
        = (Ret (error_response ("Error writing file: " ++ stderr r)), s1))
  /\ (forall dirPath all long,
        let dir := JS.or_string dirPath (JS.or_string cwd ".") in
        sshExec (ls_command dir all long) no_options st = (Ret r, s1) ->
        remote_ls dirPath all long st
        = (Ret (error_response ("Error: " ++ JS.or_str (stderr r) (stdout r))), s1))
  /\ (forall pattern searchPath,
        let dir := JS.or_string searchPath (JS.or_string cwd ".") in
        sshExec (glob_command dir pattern) no_options st = (Ret r, s1) ->
        remote_glob pattern searchPath st
        = (Ret (if JS.truthy (stderr r)
                then error_response ("Error: " ++ stderr r)
                else ok_response
                       ("Files matching '" ++ pattern ++ "' in " ++ dir ++ ":
" ++ JS.or_str (JS.trim (stdout r)) "(no matches)")), s1)).
Proof.
  intros Hne cwd.
  assert (E : JS.number_eqb (exitCode r) (JS.Num 0) = false).
  { destruct (JS.number_eqb (exitCode r) (JS.Num 0)) eqn:E; [|reflexivity].
    apply number_eqb_zero in E. contradiction. }
  unfold remote_ls, remote_glob. open_handler. fold cwd.
  split; [|split; [|split]].
  - intros filePath offset limit H. rewrite H, E. reflexivity.
  - intros filePath content H. rewrite H, E. reflexivity.
  - intros dirPath all long H. rewrite H, E. reflexivity.
  - intros pattern searchPath H. rewrite H, E. cbn [negb andb].
    destruct (JS.truthy (stderr r)); reflexivity.
Qed.

Lemma nonzero_exit_policies_witness :
  remote_glob (P := Scripted.platform) "*.ts" (Some "/nonexistent")
              (Scripted.start None 0 [Close "" "" (Some 1)])
  = (Ret (ok_response "Files matching '*.ts' in /nonexistent:
(no matches)"),
     snd (sshExec (P := Scripted.platform) (glob_command "/nonexistent" "*.ts")
                  no_options (Scripted.start None 0 [Close "" "" (Some 1)]))).
Proof.
  refine (proj2 (proj2 (proj2
           (nonzero_exit_policies (P := Scripted.platform)
              (Scripted.start None 0 [Close "" "" (Some 1)]) _
              {| stdout := ""; stderr := ""; exitCode := JS.Num 1 |} _)))
           "*.ts" (Some "/nonexistent") eq_refl).
  discriminate.
Defined.

(** ** After a change of directory *)

(** When the probe of [remote_cd] succeeds and prints a directory [d]
    (not blank), the calls that follow see it: [remote_pwd] reports [d],
    and every path that does not begin with "/" resolves to [d/P].  The
    call itself has run the probe and nothing else. *)
Theorem cd_then_use {P : Platform} (newPath d : string) (st s1 : State P)
        (result : ExecResult) :
  sshExec ("cd " ++ escapeShell (resolvePath (currentWorkingDirectory st) newPath)
           ++ " && pwd") no_options st = (Ret result, s1) ->
  exitCode result = JS.Num 0 ->
  JS.trim (stdout result) = d ->
  d <> "" ->
  let st' := snd (remote_cd newPath st) in
  fst (remote_cd newPath st) = Ret (ok_response ("Working directory changed to: " ++ d))
  /\ world st' = world s1
  /\ fst (remote_pwd st') = Ret (ok_response ("Current working directory: " ++ d))
  /\ (forall p, JS.startsWith p "/" = false ->
        resolvePath (currentWorkingDirectory st') p = d ++ "/" ++ p).
Proof.
  intros Hprobe Hexit Hd Hne st'.
  assert (E : remote_cd newPath st
              = (Ret (ok_response ("Working directory changed to: " ++ d)),
                 {| currentWorkingDirectory := Some d; world := world s1 |})).
  { open_handler. rewrite Hprobe, Hexit, Hd. reflexivity. }
  unfold st'. rewrite E. cbn [fst snd world currentWorkingDirectory].
  apply String.eqb_neq in Hne.
  repeat split.
  - unfold remote_pwd, bind, get_cwd, ret, JS.or_string, JS.truthy.
    cbn [currentWorkingDirectory]. now rewrite Hne.
  - intros p Hp. unfold resolvePath, JS.truthy. now rewrite Hp, Hne.
Qed.

Lemma cd_then_use_witness :
  let st := Scripted.start None 0 [Scripted.ok "/var/log
"] in
  fst (remote_pwd (snd (remote_cd (P := Scripted.platform) "/var/log/" st)))
  = Ret (ok_response "Current working directory: /var/log")
  /\ resolvePath (currentWorkingDirectory
                    (snd (remote_cd (P := Scripted.platform) "/var/log/" st)))
                 "syslog"
     = "/var/log/syslog".
Proof.
  intros st.
  pose proof (cd_then_use (P := Scripted.platform) "/var/log/" "/var/log" st
                (snd (sshExec (P := Scripted.platform) "cd '/var/log/' && pwd"
                              no_options st))
                {| stdout := "/var/log
"; stderr := ""; exitCode := JS.Num 0 |}
                eq_refl eq_refl eq_refl ltac:(discriminate))
    as [_ [_ [Hpwd Hres]]].
  split; [exact Hpwd | apply Hres; reflexivity].
Defined.

(** ** A child that ends without an exit status *)

(** When the [ssh] child closes without an exit status (it was killed,
    for instance at its timeout) and has printed nothing, the handlers
    take the call for a success: [remote_write] reports that it wrote,
    [remote_read] answers "(empty file)", and [remote_cd] reports a change
    and sets the working directory to the empty string, which the
    program then shows as not set. *)
Theorem missing_status_reads_as_success {P : Platform} (st : State P) :
  let cwd := currentWorkingDirectory st in
  let killed command w err :=
    spawn "ssh" (sshArgs command) 60000 (world st) = (Close "" err None, w) in
  (forall filePath content w err,
      killed (heredoc_command (resolvePath cwd filePath) content) w err ->
      remote_write filePath content st
      = (Ret (ok_response ("Successfully wrote to " ++ resolvePath cwd filePath)),
         {| currentWorkingDirectory := cwd; world := w |}))
  /\ (forall filePath offset limit w err,
        killed (read_command (resolvePath cwd filePath) offset limit) w err ->
        remote_read filePath offset limit st
        = (Ret (ok_response "(empty file)"),
           {| currentWorkingDirectory := cwd; world := w |}))
  /\ (forall newPath w err,
        killed ("cd " ++ escapeShell (resolvePath cwd newPath) ++ " && pwd") w err ->
        remote_cd newPath st
        = (Ret (ok_response "Working directory changed to: "),
           {| currentWorkingDirectory := Some ""; world := w |})
        /\ fst (remote_pwd (snd (remote_cd newPath st)))
           = Ret (ok_response
                    "Current working directory: (not set - use remote_cd to set)")).
Proof.
  intros cwd killed.
  assert (E : forall command w err,
             killed command w err ->
             sshExec command no_options st
             = (Ret {| stdout := ""; stderr := err; exitCode := JS.Num 0 |},
                {| currentWorkingDirectory := cwd; world := w |})).
  { intros command w err H. unfold sshExec, settle.
    cbn [timeout no_options JS.or_number]. unfold killed in H. now rewrite H. }
  split; [|split].
  - intros filePath content w err H. open_handler. fold cwd.
    rewrite (E _ _ _ H). reflexivity.
  - intros filePath offset limit w err H. open_handler. fold cwd.
    rewrite (E _ _ _ H). reflexivity.
  - intros newPath w err H.
    assert (Ecd : remote_cd newPath st
                  = (Ret (ok_response "Working directory changed to: "),
                     {| currentWorkingDirectory := Some ""; world := w |})).
    { open_handler. fold cwd. rewrite (E _ _ _ H). reflexivity. }
    split; [exact Ecd|]. rewrite Ecd. reflexivity.
Qed.

Lemma missing_status_reads_as_success_witness :
  let st := Scripted.start (Some "/srv") 0 [Close "" "" None] in
  fst (remote_cd (P := Scripted.platform) "slow-mount" st)
  = Ret (ok_response "Working directory changed to: ")
  /\ currentWorkingDirectory (snd (remote_cd (P := Scripted.platform) "slow-mount" st))
     = Some "".
Proof.
  intros st.
  pose proof (proj2 (proj2 (missing_status_reads_as_success
                              (P := Scripted.platform) st))
                    "slow-mount"
                    (Scripted.mkTape 20000 [] ["cd '/srv/slow-mount' && pwd"]) ""
                    eq_refl) as [H _].
  rewrite H. split; reflexivity.
Defined.
